(** * brief: a flexible brainfuck interpreter (brief.c)

    A shallow embedding of [brief.c] and the properties of its two phases:
    the compile loop of [main] (run-length folding and loop matching) and
    the run loop of [main] (the cell machine with its over/underflow and
    end-of-file behaviours).

    Conventions of the embedding.
    - A C [long] is a [Z].  In the run phase, arithmetic on cell values,
      bounds and the cell index is checked against the range of a 64-bit
      [long]: signed overflow is undefined in C and is reported as
      [Undefined].  The counters of the compile phase ([ii], [in], [ln],
      [quantity]) are bounded by the number of bytes of the source file and
      are left unchecked.
    - Memory obtained from [malloc]/[realloc] is indeterminate until it is
      written: a field that the program has not written yet is [None], and
      reading it is [Undefined].
    - [im] is the used part [im[0..in-1]] of the instruction memory, so [in]
      is [length im]; the capacities [ia], [la] and the reallocations are
      not represented.  [ls] is the used part of the loop stack, kept top
      first, so [ls[ln - 1]] is its head and [ln] its length.
    - [die] ends the process with status 1 ([Die], with the message; the
      line feed it puts on the standard output is not kept); returning
      from [main] is [Ok].
    - [malloc] is taken to return memory for a request of at most
      [PTRDIFF_MAX] bytes and the null pointer for a larger one.  The
      program never tests the result; [memset] on the null pointer is
      [Undefined].  The size of the tape is computed as the program
      computes it, in [size_t], where it wraps around.
    - Option parsing and the opening of the source file happen before the
      code embedded here: [main] below starts from the option variables
      ([config]), the characters of the source file and the bytes of the
      standard input. *)

From Stdlib Require Import ZArith Ascii String DecimalString.
From Stdlib Require Import Strings.Byte.
From stdpp Require Import base tactics option list numbers strings.

Local Open Scope Z_scope.

(** ** Outcomes *)

Inductive result (A : Type) : Type :=
| Ok (a : A)            (* normal continuation *)
| Die (msg : string)    (* die(): diagnostic, exit(1) *)
| Undefined             (* behaviour not defined by C *)
| OutOfFuel.            (* the run loop was cut off by the model *)
Arguments Ok {A} a.
Arguments Die {A} msg.
Arguments Undefined {A}.
Arguments OutOfFuel {A}.

#[global] Instance result_ret : MRet result := fun A a => Ok a.
#[global] Instance result_bind : MBind result := fun A B f r =>
  match r with
  | Ok a => f a
  | Die msg => Die msg
  | Undefined => Undefined
  | OutOfFuel => OutOfFuel
  end.

(** ** Constants of brief.c *)

(** The value [getc] returns for a character. *)
Definition chr (c : ascii) : Z := Z.of_N (N_of_ascii c).

Definition BF_END_ERROR  : Z := Eval cbv in chr "e".
Definition BF_END_IGNORE : Z := Eval cbv in chr "i".
Definition BF_END_WRAP   : Z := Eval cbv in chr "w".
Definition BF_OP_VINC    : Z := Eval cbv in chr "+".
Definition BF_OP_VDEC    : Z := Eval cbv in chr "-".
Definition BF_OP_PINC    : Z := Eval cbv in chr ">".
Definition BF_OP_PDEC    : Z := Eval cbv in chr "<".
Definition BF_OP_LSTART  : Z := Eval cbv in chr "[".
Definition BF_OP_LEND    : Z := Eval cbv in chr "]".
Definition BF_OP_IN      : Z := Eval cbv in chr ",".
Definition BF_OP_OUT     : Z := Eval cbv in chr ".".
Definition BF_EOF_ZERO   : Z := Eval cbv in chr "0".
Definition BF_EOF_MIN    : Z := Eval cbv in chr "a".
Definition BF_EOF_MAX    : Z := Eval cbv in chr "b".
Definition BF_EOF_NEGONE : Z := Eval cbv in chr "n".
Definition BF_EOF_NOCHG  : Z := Eval cbv in chr "x".
Definition BF_MODE_DUMP  : Z := Eval cbv in chr "d".
Definition BF_MODE_RUN   : Z := Eval cbv in chr "r".

(** [EOF] of <stdio.h>: -1 in the C libraries brief is built against. *)
Definition EOF : Z := -1.

(** Range of a 64-bit [long]. *)
Definition LONG_MIN : Z := Eval cbv in - 2 ^ 63.
Definition LONG_MAX : Z := Eval cbv in 2 ^ 63 - 1.

(** [size_t] is 64 bits wide: [SIZE_MAX], [PTRDIFF_MAX] and
    [sizeof(long)]. *)
Definition SIZE_MAX : Z := Eval cbv in 2 ^ 64 - 1.
Definition PTRDIFF_MAX : Z := Eval cbv in 2 ^ 63 - 1.
Definition sizeof_long : Z := 8.

(** ** Data *)

(** [typedef struct { long instruction; long quantity; long loop; }
    instruction;] *)
Record instruction : Type := mk_instruction {
  instruction_ : Z;        (* instruction type *)
  quantity : option Z;     (* number of times to run the instruction *)
  loop : option Z          (* index of the loop's matching 'other' instruction *)
}.

(** The option variables of [main]. *)
Record config : Type := mk_config {
  va : Z;    (* minimum value *)
  vb : Z;    (* maximum value *)
  cn : Z;    (* number of cells to allocate *)
  vw : Z;    (* value wrap behaviour *)
  cw : Z;    (* cell wrap behaviour *)
  ce : Z;    (* EOF behaviour *)
  mode : Z   (* runtime mode *)
}.

(** The initialisers of [main]. *)
Definition default_config : config :=
  {| va := 0; vb := 255; cn := 30000; vw := BF_END_WRAP; cw := BF_END_ERROR;
     ce := BF_EOF_ZERO; mode := BF_MODE_RUN |}.

(** The other variables of [main], with the two standard streams. *)
Record locals : Type := mk_locals {
  cfg : config;
  ci : Z;                    (* current cell index *)
  ii : Z;                    (* current instruction index *)
  im : list instruction;     (* inst. memory *)
  ls : list Z;               (* loop stack *)
  cm : list Z;               (* cell memory *)
  stdin : list byte;
  stdout : list byte
}.

Definition set_ci (z : Z) (m : locals) : locals :=
  mk_locals (cfg m) z (ii m) (im m) (ls m) (cm m) (stdin m) (stdout m).
Definition set_ii (z : Z) (m : locals) : locals :=
  mk_locals (cfg m) (ci m) z (im m) (ls m) (cm m) (stdin m) (stdout m).
Definition set_im (l : list instruction) (m : locals) : locals :=
  mk_locals (cfg m) (ci m) (ii m) l (ls m) (cm m) (stdin m) (stdout m).
Definition set_ls (l : list Z) (m : locals) : locals :=
  mk_locals (cfg m) (ci m) (ii m) (im m) l (cm m) (stdin m) (stdout m).
Definition set_cm (l : list Z) (m : locals) : locals :=
  mk_locals (cfg m) (ci m) (ii m) (im m) (ls m) l (stdin m) (stdout m).
Definition set_stdin (l : list byte) (m : locals) : locals :=
  mk_locals (cfg m) (ci m) (ii m) (im m) (ls m) (cm m) l (stdout m).
Definition set_stdout (l : list byte) (m : locals) : locals :=
  mk_locals (cfg m) (ci m) (ii m) (im m) (ls m) (cm m) (stdin m) l.

(** The state of [main] when the compile loop is entered. *)
Definition start (c : config) (input : list byte) : locals :=
  {| cfg := c; ci := 0; ii := 0; im := []; ls := []; cm := [];
     stdin := input; stdout := [] |}.

(** ** Memory and arithmetic *)

(** [a[z]] as an rvalue and [a[z].f = ...] as an update; an index outside
    the used part of the array is [Undefined]. *)
Definition zlookup {A : Type} (l : list A) (z : Z) : result A :=
  if z <? 0 then Undefined
  else match l !! Z.to_nat z with
       | Some a => Ok a
       | None => Undefined
       end.

Definition zalter {A : Type} (f : A -> A) (z : Z) (l : list A) : result (list A) :=
  if (0 <=? z) && (z <? Z.of_nat (length l))
  then Ok (alter f (Z.to_nat z) l)
  else Undefined.

Definition in_long (z : Z) : bool := (LONG_MIN <=? z) && (z <=? LONG_MAX).

Definition long (z : Z) : result Z := if in_long z then Ok z else Undefined.

Definition ladd (a b : Z) : result Z := long (a + b).
Definition lsub (a b : Z) : result Z := long (a - b).
(** C's [%] truncates towards zero: the result has the sign of [a]. *)
Definition lrem (a b : Z) : result Z :=
  if b =? 0 then Undefined
  else if (a =? LONG_MIN) && (b =? -1) then Undefined
  else Ok (Z.rem a b).

(** Conversion of a [long] to [size_t], and [n * sizeof(long)] as it is
    computed for [malloc] and [memset]: [n] is converted to [size_t] and the
    product is taken modulo [SIZE_MAX + 1]. *)
Definition size_t (z : Z) : Z := z mod (SIZE_MAX + 1).

Definition tape_bytes (n : Z) : Z := size_t (size_t n * sizeof_long).

(** [long wrap(long value, long low, long high)]:
    [return (value - low) % (1 + high - low) + low;] *)
Definition wrap (value low high : Z) : result Z :=
  a ← lsub value low;
  b ← ladd 1 high;
  c ← lsub b low;
  r ← lrem a c;
  ladd r low.

(** Reading a field of instruction memory that may not have been written. *)
Definition written (o : option Z) : result Z :=
  match o with
  | Some z => Ok z
  | None => Undefined
  end.

Definition set_quantity (q : Z) (x : instruction) : instruction :=
  mk_instruction (instruction_ x) (Some q) (loop x).
Definition set_loop (t : Z) (x : instruction) : instruction :=
  mk_instruction (instruction_ x) (quantity x) (Some t).

(** ** The compile loop (brief.c, lines 127-168) *)

(** The six [case] labels that share the folding branch. *)
Definition foldable (i : Z) : bool :=
  (i =? BF_OP_VINC) || (i =? BF_OP_VDEC) || (i =? BF_OP_PINC) ||
  (i =? BF_OP_PDEC) || (i =? BF_OP_IN) || (i =? BF_OP_OUT).

(** The body of the loop for one character [i] of the source file. *)
Definition compile_char (i : Z) (m : locals) : result locals :=
  if foldable i then
    let fresh :=
      (* im[in - 1].instruction = i; im[in - 1].quantity = 1; ++ii; *)
      Ok (set_ii (ii m + 1)
            (set_im (im m ++ [mk_instruction i (Some 1) None]) m)) in
    match last (im m) with
    | Some x =>
        if i =? instruction_ x then
          (* ++im[in - 1].quantity; *)
          q ← written (quantity x);
          Ok (set_im (alter (set_quantity (q + 1))
                        (length (im m) - 1)%nat (im m)) m)
        else fresh
    | None => fresh
    end
  else if i =? BF_OP_LSTART then
    (* im[in - 1].instruction = i; ls[ln - 1] = ii; ++ii; *)
    Ok (set_ii (ii m + 1)
          (set_ls (ii m :: ls m)
             (set_im (im m ++ [mk_instruction i None None]) m)))
  else if i =? BF_OP_LEND then
    match ls m with
    | [] => Undefined                       (* ls[-1] *)
    | t :: rest =>
        (* im[in - 1].instruction = i; im[in - 1].loop = ls[ln - 1]; *)
        let im1 := im m ++ [mk_instruction i None (Some t)] in
        (* im[ls[ln - 1]].loop = ii; *)
        im2 ← zalter (set_loop (ii m)) t im1;
        (* --ln; ++ii; *)
        Ok (set_ii (ii m + 1) (set_ls rest (set_im im2 m)))
    end
  else Ok m.

(** [for (ii = 0; (i = getc(fp)) != EOF; ) switch (i) ...] over the
    characters of the source file. *)
Fixpoint compile_loop (src : list ascii) (m : locals) : result locals :=
  match src with
  | [] => Ok m
  | c :: rest => m' ← compile_char (chr c) m; compile_loop rest m'
  end.

(** The instruction memory [main] holds after the loop. *)
Definition compile (c : config) (src : list ascii) : result (list instruction) :=
  m ← compile_loop src (start c []); Ok (im m).

(** ** The run loop (brief.c, lines 181-290) *)

Definition byte_value (b : byte) : Z := Z.of_N (Byte.to_N b).

(** [putchar] writes its argument converted to [unsigned char]. *)
Definition to_byte (z : Z) : byte :=
  match Byte.of_N (Z.to_N (z mod 256)) with
  | Some b => b
  | None => x00
  end.

Definition read_cell (m : locals) : result Z := zlookup (cm m) (ci m).

Definition write_cell (v : Z) (m : locals) : result locals :=
  l ← zalter (fun _ => v) (ci m) (cm m); Ok (set_cm l m).

(** One turn of [for (j = im[ii].quantity; j; j--)] under [case BF_OP_IN]. *)
Definition read_turn (m : locals) : result locals :=
  let c := cfg m in
  match stdin m with
  | b :: rest => write_cell (byte_value b) (set_stdin rest m)
  | [] =>
      let k := EOF in
      k ← (if ce c =? BF_EOF_ZERO then Ok 0
            else if ce c =? BF_EOF_NEGONE then Ok (-1)
            else if ce c =? BF_EOF_MIN then Ok (va c)
            else if ce c =? BF_EOF_MAX then Ok (vb c)
            else if ce c =? BF_EOF_NOCHG then Ok k
            else Die "invalid EOF behaviour");
      write_cell k m
  end.

(** One turn of the loop under [case BF_OP_OUT]. *)
Definition write_turn (m : locals) : result locals :=
  v ← read_cell m; Ok (set_stdout (stdout m ++ [to_byte v]) m).

Fixpoint turns (n : nat) (body : locals -> result locals) (m : locals)
  : result locals :=
  match n with
  | O => Ok m
  | S n' => m' ← body m; turns n' body m'
  end.

(** [for (j = q; j; j--) body]: a negative [q] counts down until [j--]
    overflows. *)
Definition repeat_quantity (q : Z) (body : locals -> result locals)
    (m : locals) : result locals :=
  if q <? 0 then Undefined else turns (Z.to_nat q) body m.

(** The [switch (im[ii].instruction)] for the instruction [x = im[ii]]. *)
Definition exec (x : instruction) (m : locals) : result locals :=
  let c := cfg m in
  let i := instruction_ x in
  if i =? BF_OP_VINC then
    v ← read_cell m; q ← written (quantity x); s ← ladd v q;
    if s >? vb c then
      if vw c =? BF_END_ERROR then Die "value overflow"
      else if vw c =? BF_END_IGNORE then write_cell (vb c) m
      else if vw c =? BF_END_WRAP then
        m1 ← write_cell s m; v1 ← read_cell m1;
        w ← wrap v1 (va c) (vb c); write_cell w m1
      else Die "invalid value-end behaviour"
    else write_cell s m
  else if i =? BF_OP_VDEC then
    v ← read_cell m; q ← written (quantity x); s ← lsub v q;
    if s <? va c then
      if vw c =? BF_END_ERROR then Die "value underflow"
      else if vw c =? BF_END_IGNORE then write_cell (va c) m
      else if vw c =? BF_END_WRAP then
        m1 ← write_cell s m; v1 ← read_cell m1;
        w ← wrap v1 (va c) (vb c); write_cell w m1
      else Die "invalid value-end behaviour"
    else write_cell s m
  else if i =? BF_OP_PINC then
    q ← written (quantity x); s ← ladd (ci m) q; e ← lsub (cn c) 1;
    if s >? e then
      if cw c =? BF_END_ERROR then Die "cell index overflow"
      else if cw c =? BF_END_IGNORE then Ok (set_ci e m)
      else if cw c =? BF_END_WRAP then
        w ← wrap s 0 (cn c); Ok (set_ci w m)
      else Die "invalid cell-end behaviour"
    else Ok (set_ci s m)
  else if i =? BF_OP_PDEC then
    q ← written (quantity x); s ← lsub (ci m) q;
    if s <? 0 then
      if cw c =? BF_END_ERROR then Die "cell index underflow"
      else if cw c =? BF_END_IGNORE then Ok (set_ci 0 m)
      else if cw c =? BF_END_WRAP then
        w ← wrap s 0 (cn c); Ok (set_ci w m)
      else Die "invalid cell-end behaviour"
    else Ok (set_ci s m)
  else if i =? BF_OP_IN then
    q ← written (quantity x); repeat_quantity q read_turn m
  else if i =? BF_OP_OUT then
    q ← written (quantity x); repeat_quantity q write_turn m
  else if i =? BF_OP_LSTART then
    v ← read_cell m;
    if v =? 0 then t ← written (loop x); Ok (set_ii t m) else Ok m
  else if i =? BF_OP_LEND then
    v ← read_cell m;
    if v =? 0 then Ok m else t ← written (loop x); Ok (set_ii t m)
  else Ok m.

(** [for (...; ii < in; ii++) switch (im[ii].instruction) ...], cut off
    after [fuel] instructions. *)
Fixpoint run_loop (fuel : nat) (m : locals) : result locals :=
  if ii m <? Z.of_nat (length (im m)) then
    match fuel with
    | O => OutOfFuel
    | S fuel' =>
        x ← zlookup (im m) (ii m);
        m' ← exec x m;
        run_loop fuel' (set_ii (ii m' + 1) m')
    end
  else Ok m.

(** ** Dump mode (brief.c, lines 172-180) *)

Definition bytes_of (s : string) : list byte := list_byte_of_string s.

(** [printf("%c %ld", (int) x.instruction, x.quantity)] and the separator
    chosen by [++j % 8]. *)
Definition dump_one (j : Z) (x : instruction) : result (list byte) :=
  q ← written (quantity x);
  Ok ([to_byte (instruction_ x)] ++ bytes_of " " ++
      bytes_of (NilZero.string_of_int (Z.to_int q)) ++
      [to_byte (if Z.rem (j + 1) 8 =? 0 then 10 else 9)]).

Fixpoint dump_loop (j : Z) (l : list instruction) : result (list byte) :=
  match l with
  | [] => Ok [to_byte 10]
  | x :: l' => a ← dump_one j x; b ← dump_loop (j + 1) l'; Ok (a ++ b)
  end.

(** ** main, after the options are parsed and the source file is opened *)

Definition main (c : config) (src : list ascii) (input : list byte)
    (fuel : nat) : result locals :=
  m ← compile_loop src (start c input);
  if mode c =? BF_MODE_DUMP then
    out ← dump_loop 0 (im m); Ok (set_stdout (stdout m ++ out) m)
  else if mode c =? BF_MODE_RUN then
    (* cm = memset(malloc(cn * sizeof(long)), 0, cn * sizeof(long)); *)
    if PTRDIFF_MAX <? tape_bytes (cn c) then Undefined
    else run_loop fuel
           (set_ii 0
              (set_cm (replicate (Z.to_nat (tape_bytes (cn c) / sizeof_long)) 0)
                 m))
  else Die "invalid mode".

Definition src (s : string) : list ascii := list_ascii_of_string s.

Definition hello : string :=
  "++++++++[>++++[>++>+++>+++>+<<<<-]>+>+>->>+[<]<-]>>.>---.+++++++..+++.".

(** ** Definitions used in the statements *)

Definition is_long (z : Z) : Prop := LONG_MIN <= z <= LONG_MAX.

Definition with_cfg (c : config) (m : locals) : locals :=
  mk_locals c (ci m) (ii m) (im m) (ls m) (cm m) (stdin m) (stdout m).

#[global] Instance result_fmap : FMap result := fun A B f r =>
  match r with
  | Ok a => Ok (f a)
  | Die msg => Die msg
  | Undefined => Undefined
  | OutOfFuel => OutOfFuel
  end.

(** A machine state of the run phase, for examples. *)
Definition machine (c : config) (cells : list Z) (p : Z) (input : list byte)
  : locals :=
  mk_locals c p 0 [] [] cells input [].

(** Option settings used in the examples: [-c 3 -v i -w i], [-b 9 -c 2],
    [-e x], [-c 10 -w w] and [-m d]. *)
Definition saturating : config :=
  {| va := 0; vb := 255; cn := 3; vw := BF_END_IGNORE; cw := BF_END_IGNORE;
     ce := BF_EOF_ZERO; mode := BF_MODE_RUN |}.

Definition narrow : config :=
  {| va := 0; vb := 9; cn := 2; vw := BF_END_WRAP; cw := BF_END_ERROR;
     ce := BF_EOF_ZERO; mode := BF_MODE_RUN |}.

Definition keep_on_eof : config :=
  {| va := 0; vb := 255; cn := 30000; vw := BF_END_WRAP; cw := BF_END_ERROR;
     ce := BF_EOF_NOCHG; mode := BF_MODE_RUN |}.

Definition ten_cells_wrapping : config :=
  {| va := 0; vb := 255; cn := 10; vw := BF_END_WRAP; cw := BF_END_WRAP;
     ce := BF_EOF_ZERO; mode := BF_MODE_RUN |}.

Definition dumping : config :=
  {| va := 0; vb := 255; cn := 30000; vw := BF_END_WRAP; cw := BF_END_ERROR;
     ce := BF_EOF_ZERO; mode := BF_MODE_DUMP |}.

(** The eight characters that have a [case] label in the compile loop. *)
Definition is_op (i : Z) : bool :=
  foldable i || (i =? BF_OP_LSTART) || (i =? BF_OP_LEND).

(** The source without the characters that fall to [default: break]. *)
Definition strip (s : list ascii) : list ascii :=
  List.filter (fun c => is_op (chr c)) s.

(** The two fields of an instruction that dump mode prints. *)
Definition printed (x : instruction) : Z * option Z :=
  (instruction_ x, quantity x).

(** Bracket structure of a source text: from [d] brackets pending, the
    number pending after [s], or [None] if a [[]] arrives when none is
    pending. *)
Fixpoint bracket_scan (s : list ascii) (d : nat) : option nat :=
  match s with
  | [] => Some d
  | c :: r =>
      if chr c =? BF_OP_LSTART then bracket_scan r (S d)
      else if chr c =? BF_OP_LEND then
        match d with
        | O => None
        | S d' => bracket_scan r d'
        end
      else bracket_scan r d
  end.

(** What one turn of the compile loop does to [main]'s variables, by the
    branch taken. *)
Inductive char_step (i : Z) (m : locals) : locals -> Prop :=
| step_skip :
    is_op i = false -> char_step i m m
| step_fold l x q :
    foldable i = true -> im m = l ++ [x] -> instruction_ x = i ->
    quantity x = Some q ->
    char_step i m (set_im (l ++ [set_quantity (q + 1) x]) m)
| step_fresh :
    foldable i = true -> last (instruction_ <$> im m) <> Some i ->
    char_step i m
      (set_ii (ii m + 1) (set_im (im m ++ [mk_instruction i (Some 1) None]) m))
| step_open :
    i = BF_OP_LSTART ->
    char_step i m
      (set_ii (ii m + 1)
         (set_ls (ii m :: ls m)
            (set_im (im m ++ [mk_instruction i None None]) m)))
| step_close t rest :
    i = BF_OP_LEND -> ls m = t :: rest ->
    0 <= t < Z.of_nat (length (im m)) + 1 ->
    char_step i m
      (set_ii (ii m + 1)
         (set_ls rest
            (set_im (alter (set_loop (ii m)) (Z.to_nat t)
                       (im m ++ [mk_instruction i None (Some t)])) m))).

(** What holds of [main]'s variables throughout the compile loop. *)
Record compile_inv (m : locals) : Prop := mk_compile_inv {
  inv_ii : ii m = Z.of_nat (length (im m));
  inv_ls : Forall (fun t => 0 <= t < Z.of_nat (length (im m))) (ls m);
  inv_quantity :
    Forall (fun x => if foldable (instruction_ x)
                     then exists q, quantity x = Some q /\ 1 <= q
                     else quantity x = None) (im m)
}.

(** Run-length folding on its own: the printed fields of the instructions
    compiled so far, latest first, and what one character does to them. *)
Definition bump (e : Z * option Z) : Z * option Z :=
  (e.1, (fun q => q + 1) <$> e.2).

Definition fold_char (i : Z) (rl : list (Z * option Z)) : list (Z * option Z) :=
  if foldable i then
    match rl with
    | e :: r => if i =? e.1 then bump e :: r else (i, Some 1) :: rl
    | [] => [(i, Some 1)]
    end
  else if is_op i then (i, None) :: rl
  else rl.

Fixpoint fold_source (s : list ascii) (rl : list (Z * option Z))
  : list (Z * option Z) :=
  match s with
  | [] => rl
  | c :: r => fold_source r (fold_char (chr c) rl)
  end.

(** Matching brackets in a sequence of instruction types, by nesting
    depth.  [find_close l d], read from just after a [[[] with [d] further
    [[[] pending: [inl k] when the [[]] that closes it is [l[k]], and
    [inr d'] when [l] ends first, with [d'] further [[[] still pending. *)
Definition shift (r : nat + nat) : nat + nat :=
  match r with
  | inl k => inl (S k)
  | inr d => inr d
  end.

Fixpoint find_close (l : list Z) (d : nat) : nat + nat :=
  match l with
  | [] => inr d
  | i :: r =>
      if i =? BF_OP_LEND then
        match d with
        | O => inl O
        | S d' => shift (find_close r d')
        end
      else if i =? BF_OP_LSTART then shift (find_close r (S d))
      else shift (find_close r d)
  end.

(** The index of the [[]] that matches the [[[] at index [i]. *)
Definition matching_close (ops : list Z) (i : nat) : option nat :=
  match find_close (drop (S i) ops) 0 with
  | inl k => Some (S i + k)%nat
  | inr _ => None
  end.

(** [find_close] after one more instruction type [x] at index [n]. *)
Definition snoc_close (x : Z) (n : nat) (r : nat + nat) : nat + nat :=
  match r with
  | inl k => inl k
  | inr d =>
      if x =? BF_OP_LEND then
        match d with
        | O => inl n
        | S d' => inr d'
        end
      else if x =? BF_OP_LSTART then inr (S d)
      else inr d
  end.

(** The loop fields and the loop stack during the compile loop, in terms
    of the instruction types [ops], the [loop] fields [lps] and the stack
    [st]: the stack holds the open brackets, innermost first; a closed
    [[[] and its [[]] point at each other; an open [[[] has no [loop]. *)
Record match_inv (ops : list Z) (lps : list (option Z)) (st : list Z)
  : Prop := mk_match_inv {
  mi_len : length lps = length ops;
  mi_stack : forall (p : nat) (t : Z), st !! p = Some t ->
    exists n : nat, t = Z.of_nat n /\ ops !! n = Some BF_OP_LSTART /\
      find_close (drop (S n) ops) 0 = inr p;
  mi_open : forall i : nat, ops !! i = Some BF_OP_LSTART ->
    match find_close (drop (S i) ops) 0 with
    | inl k => lps !! i = Some (Some (Z.of_nat (S i + k))) /\
               lps !! (S i + k)%nat = Some (Some (Z.of_nat i))
    | inr p => st !! p = Some (Z.of_nat i) /\ lps !! i = Some None
    end;
  mi_close : forall j : nat, ops !! j = Some BF_OP_LEND ->
    exists i : nat, lps !! j = Some (Some (Z.of_nat i)) /\ (i < j)%nat /\
      ops !! i = Some BF_OP_LSTART /\ lps !! i = Some (Some (Z.of_nat j))
}.

(** Option settings with behaviour characters the program does not know
    (63 is the character [?]): [-a 5 -c 3 -v ? -w ? -e ?]. *)
Definition unknown_behaviours : config :=
  {| va := 5; vb := 255; cn := 3; vw := 63; cw := 63; ce := 63;
     mode := BF_MODE_RUN |}.

(** The option settings [-c 3 -v e -w e]. *)
Definition erroring : config :=
  {| va := 0; vb := 255; cn := 3; vw := BF_END_ERROR; cw := BF_END_ERROR;
     ce := BF_EOF_ZERO; mode := BF_MODE_RUN |}.

(** What the run loop leaves alone: the options, the instruction memory,
    the loop stack and the number of cells; the output only grows and the
    input is only consumed from the front. *)
Definition keeps (m m' : locals) : Prop :=
  cfg m' = cfg m /\ im m' = im m /\ ls m' = ls m /\
  length (cm m') = length (cm m) /\
  (exists out, stdout m' = stdout m ++ out) /\
  (exists used, stdin m = used ++ stdin m').

(** Replacing the standard input in [main]'s variables. *)
Definition with_stdin (input : list byte) (m : locals) : locals :=
  mk_locals (cfg m) (ci m) (ii m) (im m) (ls m) (cm m) input (stdout m).

(** [main]'s variables when the run loop is entered for the source [[-]+]
    with one cell. *)
Definition at_clear_loop : locals :=
  mk_locals default_config 0 0
    [mk_instruction BF_OP_LSTART None (Some 2);
     mk_instruction BF_OP_VDEC (Some 1) None;
     mk_instruction BF_OP_LEND None (Some 0);
     mk_instruction BF_OP_VINC (Some 1) None] [] [0] [] [].

(** Reading a compiled program back as operator characters: an
    instruction stands for [quantity] copies of its type, a bracket (which
    has no quantity) for one. *)
Definition expand (x : instruction) : list Z :=
  replicate (Z.to_nat (default 1 (quantity x))) (instruction_ x).

Definition decode (l : list instruction) : list Z := l ≫= expand.

(** No instruction of a foldable type is followed by one of the same
    type. *)
Definition folded_up (ops : list Z) : Prop :=
  forall (i : nat) (a b : Z),
    ops !! i = Some a -> ops !! S i = Some b -> foldable a = true -> a <> b.

(** The two characters of the loop brackets. *)
Definition is_bracket (i : Z) : bool :=
  (i =? BF_OP_LSTART) || (i =? BF_OP_LEND).

Definition has_bracket (s : list ascii) : bool :=
  existsb (fun a => (chr a =? BF_OP_LSTART) || (chr a =? BF_OP_LEND)) s.

(** The option setting [-m q], a mode the program does not know (113 is
    the character [q]). *)
Definition unknown_mode : config :=
  {| va := 0; vb := 255; cn := 3; vw := BF_END_WRAP; cw := BF_END_ERROR;
     ce := BF_EOF_ZERO; mode := 113 |}.

(** A value inside the range set by [-a] and [-b]. *)
Definition in_range (c : config) (v : Z) : Prop := va c <= v <= vb c.

(** A value not above the maximum set by [-b]. *)
Definition at_most_max (c : config) (v : Z) : Prop := v <= vb c.
(** * Properties *)

(** ** Basic facts about outcomes, memory and arithmetic *)

Lemma bind_Ok {A B : Type} (r : result A) (f : A -> result B) (b : B) :
  r ≫= f = Ok b -> exists a, r = Ok a /\ f a = Ok b.
Proof. destruct r; simpl; intros H; try discriminate. eauto. Qed.

Lemma long_ok (z : Z) : is_long z -> long z = Ok z.
Proof.
  unfold is_long, long, in_long. intros [H1 H2].
  apply Z.leb_le in H1, H2. now rewrite H1, H2.
Qed.

Lemma zlookup_Ok {A : Type} (l : list A) (z : Z) (a : A) :
  zlookup l z = Ok a <-> 0 <= z /\ l !! Z.to_nat z = Some a.
Proof.
  unfold zlookup. destruct (Z.ltb_spec z 0).
  - split; [discriminate | lia].
  - destruct (l !! Z.to_nat z) eqn:E; split; intros H';
      try discriminate; try (destruct H'; congruence).
    split; [lia | congruence].
Qed.

Lemma zalter_Ok {A : Type} (f : A -> A) (l : list A) (z : Z) :
  0 <= z < Z.of_nat (length l) ->
  zalter f z l = Ok (alter f (Z.to_nat z) l).
Proof.
  intros [H1 H2]. unfold zalter.
  apply Z.leb_le in H1. apply Z.ltb_lt in H2. now rewrite H1, H2.
Qed.

Lemma zalter_inv {A : Type} (f : A -> A) (l l' : list A) (z : Z) :
  zalter f z l = Ok l' ->
  0 <= z < Z.of_nat (length l) /\ l' = alter f (Z.to_nat z) l.
Proof.
  unfold zalter.
  destruct (Z.leb_spec 0 z), (Z.ltb_spec z (Z.of_nat (length l)));
    simpl; intros H'; try discriminate.
  split; [lia | congruence].
Qed.

(** A cell that can be read can be written, and holds what was written. *)
Lemma write_cell_read (m : locals) (v w : Z) :
  read_cell m = Ok v ->
  exists m', write_cell w m = Ok m' /\ read_cell m' = Ok w /\
    m' = set_cm (alter (fun _ => w) (Z.to_nat (ci m)) (cm m)) m.
Proof.
  unfold read_cell. intros H. apply zlookup_Ok in H as [H0 H].
  pose proof (lookup_lt_Some _ _ _ H) as Hlt.
  unfold write_cell. rewrite zalter_Ok by lia. simpl.
  eexists; split; [reflexivity | split; [| reflexivity]].
  unfold read_cell; simpl. apply zlookup_Ok. split; [lia |].
  rewrite list_lookup_alter_eq, H. reflexivity.
Qed.

(** ** The compile loop does not look at the configuration *)

Lemma compile_char_with_cfg (c : config) (i : Z) (m : locals) :
  compile_char i (with_cfg c m) = with_cfg c <$> compile_char i m.
Proof.
  unfold compile_char; simpl.
  destruct (foldable i).
  - destruct (last (im m)) as [x|]; [| reflexivity].
    destruct (i =? instruction_ x); [| reflexivity].
    destruct (quantity x); reflexivity.
  - destruct (i =? BF_OP_LSTART); [reflexivity |].
    destruct (i =? BF_OP_LEND); [| reflexivity].
    destruct (ls m) as [|t rest]; [reflexivity |].
    destruct (zalter _ t _); reflexivity.
Qed.

Lemma compile_loop_with_cfg (c : config) (s : list ascii) (m : locals) :
  compile_loop s (with_cfg c m) = with_cfg c <$> compile_loop s m.
Proof.
  revert m. induction s as [|a s IH]; intros m; simpl; [reflexivity |].
  rewrite compile_char_with_cfg.
  destruct (compile_char (chr a) m) as [m'| | |]; simpl; auto.
Qed.

(** C9.  Compilation is independent of the runtime configuration: for every
    source text and every two configuration records, the compile loop
    leaves the same instruction memory (or fails in the same way). *)
Theorem compile_ignores_config (c1 c2 : config) (s : list ascii) :
  compile c1 s = compile c2 s.
Proof.
  unfold compile.
  change (start c1 []) with (with_cfg c1 (start c2 [])).
  rewrite compile_loop_with_cfg.
  destruct (compile_loop s (start c2 [])); reflexivity.
Qed.

(** ** The run loop: one instruction *)

(** Decide the comparisons of the [switch] statements whose operands are
    both constants. *)
Ltac switch_consts :=
  repeat match goal with
  | |- context [Z.eqb ?a ?b] =>
      let r := eval vm_compute in (Z.eqb a b) in
      match r with
      | true => change (Z.eqb a b) with true
      | false => change (Z.eqb a b) with false
      end
  end;
  cbv iota.

Ltac run_bind := cbn [mbind result_bind mret result_ret].

Lemma gtb_true (a b : Z) : b < a -> (a >? b) = true.
Proof. intros H. rewrite Z.gtb_ltb. now apply Z.ltb_lt. Qed.

(** C8.  Under the behaviour [i] (the spec's Saturate), an increment whose
    candidate exceeds [vb] stores exactly [vb], a decrement whose candidate
    is below [va] stores exactly [va], a move past the last cell sets the
    cell index to exactly [cn - 1] and a move below cell 0 sets it to
    exactly 0.  The candidate is computed in a [long], so it is assumed to
    fit in one. *)
Theorem saturate_clamps (m : locals) (x : instruction) (n v : Z) :
  quantity x = Some n ->
  (instruction_ x = BF_OP_VINC -> vw (cfg m) = BF_END_IGNORE ->
   read_cell m = Ok v -> is_long (v + n) -> vb (cfg m) < v + n ->
   exists m', exec x m = Ok m' /\ read_cell m' = Ok (vb (cfg m)) /\
              ci m' = ci m) /\
  (instruction_ x = BF_OP_VDEC -> vw (cfg m) = BF_END_IGNORE ->
   read_cell m = Ok v -> is_long (v - n) -> v - n < va (cfg m) ->
   exists m', exec x m = Ok m' /\ read_cell m' = Ok (va (cfg m)) /\
              ci m' = ci m) /\
  (instruction_ x = BF_OP_PINC -> cw (cfg m) = BF_END_IGNORE ->
   is_long (ci m + n) -> is_long (cn (cfg m) - 1) ->
   cn (cfg m) - 1 < ci m + n ->
   exists m', exec x m = Ok m' /\ ci m' = cn (cfg m) - 1 /\ cm m' = cm m) /\
  (instruction_ x = BF_OP_PDEC -> cw (cfg m) = BF_END_IGNORE ->
   is_long (ci m - n) -> ci m - n < 0 ->
   exists m', exec x m = Ok m' /\ ci m' = 0 /\ cm m' = cm m).
Proof.
  intros Hq. repeat split.
  - intros Hop Hpol Hv Hl Hover.
    destruct (write_cell_read m v (vb (cfg m)) Hv) as (m' & Hw & Hr & Hm').
    exists m'. unfold exec; cbv zeta. rewrite Hop, Hq, Hv. switch_consts.
    unfold written, ladd. run_bind. rewrite (long_ok _ Hl). run_bind.
    rewrite (gtb_true _ _ Hover), Hpol. switch_consts.
    split; [exact Hw | split; [exact Hr | now subst m']].
  - intros Hop Hpol Hv Hl Hunder.
    destruct (write_cell_read m v (va (cfg m)) Hv) as (m' & Hw & Hr & Hm').
    exists m'. unfold exec; cbv zeta. rewrite Hop, Hq, Hv. switch_consts.
    unfold written, lsub. run_bind. rewrite (long_ok _ Hl). run_bind.
    rewrite (proj2 (Z.ltb_lt _ _) Hunder), Hpol. switch_consts.
    split; [exact Hw | split; [exact Hr | now subst m']].
  - intros Hop Hpol Hl He Hover.
    eexists. unfold exec; cbv zeta. rewrite Hop, Hq. switch_consts.
    unfold written, ladd, lsub. run_bind. rewrite (long_ok _ Hl). run_bind.
    rewrite (long_ok _ He). run_bind. rewrite (gtb_true _ _ Hover), Hpol. switch_consts.
    split; [reflexivity | split; reflexivity].
  - intros Hop Hpol Hl Hunder.
    eexists. unfold exec; cbv zeta. rewrite Hop, Hq. switch_consts.
    unfold written, lsub. run_bind. rewrite (long_ok _ Hl). run_bind.
    rewrite (proj2 (Z.ltb_lt _ _) Hunder), Hpol. switch_consts.
    split; [reflexivity | split; reflexivity].
Qed.

Lemma saturate_clamps_witness :
  (exists m', exec (mk_instruction BF_OP_VINC (Some 10) None)
                (machine saturating [250; 0; 0] 0 []) = Ok m' /\
              read_cell m' = Ok 255 /\ ci m' = 0) /\
  (exists m', exec (mk_instruction BF_OP_VDEC (Some 4) None)
                (machine saturating [0; 3; 0] 1 []) = Ok m' /\
              read_cell m' = Ok 0 /\ ci m' = 1) /\
  (exists m', exec (mk_instruction BF_OP_PINC (Some 2) None)
                (machine saturating [0; 0; 0] 1 []) = Ok m' /\
              ci m' = 2 /\ cm m' = [0; 0; 0]) /\
  (exists m', exec (mk_instruction BF_OP_PDEC (Some 2) None)
                (machine saturating [0; 0; 0] 1 []) = Ok m' /\
              ci m' = 0 /\ cm m' = [0; 0; 0]).
Proof.
  split; [| split; [| split]].
  - apply (proj1 (saturate_clamps (machine saturating [250; 0; 0] 0 [])
                    (mk_instruction BF_OP_VINC (Some 10) None) 10 250
                    eq_refl));
      first [reflexivity | unfold is_long, LONG_MIN, LONG_MAX; simpl; lia
            | simpl; lia].
  - apply (proj1 (proj2 (saturate_clamps (machine saturating [0; 3; 0] 1 [])
                    (mk_instruction BF_OP_VDEC (Some 4) None) 4 3
                    eq_refl)));
      first [reflexivity | unfold is_long, LONG_MIN, LONG_MAX; simpl; lia
            | simpl; lia].
  - apply (proj1 (proj2 (proj2 (saturate_clamps
                    (machine saturating [0; 0; 0] 1 [])
                    (mk_instruction BF_OP_PINC (Some 2) None) 2 0
                    eq_refl))));
      first [reflexivity | unfold is_long, LONG_MIN, LONG_MAX; simpl; lia
            | simpl; lia].
  - apply (proj2 (proj2 (proj2 (saturate_clamps
                    (machine saturating [0; 0; 0] 1 [])
                    (mk_instruction BF_OP_PDEC (Some 2) None) 2 0
                    eq_refl))));
      first [reflexivity | unfold is_long, LONG_MIN, LONG_MAX; simpl; lia
            | simpl; lia].
Defined.

(** ** Reading *)

Lemma byte_value_range (b : byte) : 0 <= byte_value b <= 255.
Proof.
  unfold byte_value. pose proof (Byte.to_N_bounded b) as H. lia.
Qed.

(** C10.  When a turn of the read loop obtains a byte, the value of that
    byte is stored into the current cell as it is, whatever [va] and [vb]
    are: if the byte lies outside [[va, vb]], so does the cell afterwards. *)
Theorem read_stores_raw_byte (m : locals) (b : byte) (rest : list byte) (v : Z) :
  stdin m = b :: rest ->
  read_cell m = Ok v ->
  exists m', read_turn m = Ok m' /\
    read_cell m' = Ok (byte_value b) /\
    stdin m' = rest /\ cfg m' = cfg m /\ ci m' = ci m /\
    (vb (cfg m) < byte_value b \/ byte_value b < va (cfg m) ->
     exists w, read_cell m' = Ok w /\ ~ (va (cfg m') <= w <= vb (cfg m'))).
Proof.
  intros Hin Hv.
  destruct (write_cell_read (set_stdin rest m) v (byte_value b) Hv)
    as (m' & Hw & Hr & Hm').
  exists m'. unfold read_turn; cbv zeta. rewrite Hin.
  split; [exact Hw |]. split; [exact Hr |].
  assert (Hc : cfg m' = cfg m) by now subst m'.
  split; [now subst m' |]. split; [exact Hc |]. split; [now subst m' |].
  intros Hout. exists (byte_value b). split; [exact Hr |].
  rewrite Hc. lia.
Qed.

Lemma read_stores_raw_byte_witness :
  exists m', read_turn (machine narrow [7; 0] 0 ["A"%byte]) = Ok m' /\
    read_cell m' = Ok 65 /\
    stdin m' = [] /\ cfg m' = narrow /\ ci m' = 0 /\
    (9 < 65 \/ 65 < 0 ->
     exists w, read_cell m' = Ok w /\ ~ (va (cfg m') <= w <= vb (cfg m'))).
Proof.
  exact (read_stores_raw_byte (machine narrow [7; 0] 0 ["A"%byte])
           "A"%byte [] 7 eq_refl eq_refl).
Defined.

(** What a turn of the read loop stores when the input is exhausted:
    [k] keeps the value [EOF] under [BF_EOF_NOCHG], and [cm[ci] = k] is
    executed all the same. *)
Lemma read_turn_eof (m : locals) (v : Z) :
  stdin m = [] ->
  read_cell m = Ok v ->
  forall k,
    (ce (cfg m) = BF_EOF_ZERO /\ k = 0 \/
     ce (cfg m) = BF_EOF_MIN /\ k = va (cfg m) \/
     ce (cfg m) = BF_EOF_MAX /\ k = vb (cfg m) \/
     ce (cfg m) = BF_EOF_NEGONE /\ k = -1 \/
     ce (cfg m) = BF_EOF_NOCHG /\ k = EOF) ->
    exists m', read_turn m = Ok m' /\ read_cell m' = Ok k.
Proof.
  intros Hin Hv k Hk.
  destruct (write_cell_read m v k Hv) as (m' & Hw & Hr & _).
  exists m'. split; [| exact Hr].
  unfold read_turn; cbv zeta. rewrite Hin.
  destruct Hk as [[-> ->]|[[-> ->]|[[-> ->]|[[-> ->]|[-> ->]]]]];
    switch_consts; run_bind; exact Hw.
Qed.

(** C4 at the behaviour [x] ("do not change the cell's contents"): with the
    source [+,] and no input, the cell holds 1 before the read and -1 after
    it. *)
Theorem eof_nochg_overwrites_cell :
  main keep_on_eof (src "+") [] 1 ≫= read_cell = Ok 1 /\
  main keep_on_eof (src "+,") [] 2 ≫= read_cell = Ok (-1).
Proof. split; vm_compute; reflexivity. Qed.

(** ** Wrapping *)

(** Where [wrap] is right: a value at or above [low] is reduced modulo
    [high - low + 1] into [[low, high]]. *)
Lemma wrap_above (v low high : Z) :
  low <= high -> low <= v ->
  is_long low -> is_long (v - low) -> is_long (1 + high) ->
  is_long (1 + high - low) ->
  wrap v low high = Ok ((v - low) mod (high - low + 1) + low) /\
  low <= (v - low) mod (high - low + 1) + low <= high.
Proof.
  intros Hlh Hv Hlow H1 H2 H3.
  assert (Hm : 0 <= (v - low) mod (high - low + 1) < high - low + 1)
    by (apply Z.mod_pos_bound; lia).
  split; [| lia].
  unfold wrap, lsub, ladd. rewrite (long_ok _ H1). run_bind.
  rewrite (long_ok _ H2). run_bind. rewrite (long_ok _ H3). run_bind.
  unfold lrem.
  rewrite (proj2 (Z.eqb_neq (1 + high - low) 0)) by lia.
  rewrite (proj2 (Z.eqb_neq (1 + high - low) (-1))) by lia.
  rewrite andb_false_r. run_bind.
  rewrite Z.rem_mod_nonneg by lia.
  replace (1 + high - low) with (high - low + 1) by lia.
  apply long_ok. unfold is_long in *. lia.
Qed.

(** Where [wrap] is wrong: C's [%] gives a value below [low] a remainder
    that is zero or negative, so the result is at most [low], and is
    [low] or outside [[low, high]]. *)
Lemma wrap_below (v low high w : Z) :
  low <= high -> v < low ->
  wrap v low high = Ok w ->
  w = low - (low - v) mod (high - low + 1) /\ w <= low.
Proof.
  intros Hlh Hv H. unfold wrap in H.
  apply bind_Ok in H as (a & Ha & H). apply bind_Ok in H as (b & Hb & H).
  apply bind_Ok in H as (c & Hc & H). apply bind_Ok in H as (r & Hr & H).
  unfold lsub, ladd, long in *.
  destruct (in_long (v - low)); [| discriminate]. injection Ha as <-.
  destruct (in_long (1 + high)); [| discriminate]. injection Hb as <-.
  destruct (in_long (1 + high - low)); [| discriminate]. injection Hc as <-.
  unfold lrem in Hr.
  destruct (1 + high - low =? 0); [discriminate |].
  destruct ((v - low =? LONG_MIN) && (1 + high - low =? -1));
    [discriminate |]. injection Hr as <-.
  destruct (in_long (Z.rem (v - low) (1 + high - low) + low));
    [| discriminate]. injection H as <-.
  replace (v - low) with (- (low - v)) by lia.
  rewrite Z.rem_opp_l by lia. rewrite Z.rem_mod_nonneg by lia.
  replace (1 + high - low) with (high - low + 1) by lia.
  assert (0 <= (low - v) mod (high - low + 1) < high - low + 1)
    by (apply Z.mod_pos_bound; lia).
  lia.
Qed.

(** The cell index is wrapped by [wrap(ci, 0, cn)], that is modulo
    [cn + 1]: the index [cn], one past the last cell, is kept. *)
Lemma wrap_index (s n : Z) :
  0 < n -> 0 <= s -> is_long s -> is_long (1 + n) ->
  wrap s 0 n = Ok (s mod (n + 1)).
Proof.
  intros Hn Hs H1 H2.
  destruct (wrap_above s 0 n) as [H _]; try lia;
    rewrite ?Z.sub_0_r; try assumption.
  - unfold is_long, LONG_MIN, LONG_MAX. lia.
  - rewrite H, !Z.sub_0_r, Z.add_0_r. reflexivity.
Qed.

(** X2.  Under the behaviour [w], an increment whose candidate exceeds
    [vb] stores the candidate reduced modulo [vb - va + 1] from [va], a
    value of [[va, vb]]. *)
Lemma inc_value_wraps (m : locals) (x : instruction) (n v : Z) :
  instruction_ x = BF_OP_VINC -> quantity x = Some n ->
  vw (cfg m) = BF_END_WRAP -> read_cell m = Ok v ->
  va (cfg m) <= vb (cfg m) -> vb (cfg m) < v + n ->
  is_long (v + n) -> is_long (va (cfg m)) -> is_long (v + n - va (cfg m)) ->
  is_long (1 + vb (cfg m)) -> is_long (1 + vb (cfg m) - va (cfg m)) ->
  exists m', exec x m = Ok m' /\
    read_cell m' =
      Ok ((v + n - va (cfg m)) mod (vb (cfg m) - va (cfg m) + 1) + va (cfg m)) /\
    va (cfg m) <=
      (v + n - va (cfg m)) mod (vb (cfg m) - va (cfg m) + 1) + va (cfg m)
      <= vb (cfg m).
Proof.
  intros Hop Hq Hpol Hv Hrange Hover L1 L2 L3 L4 L5.
  destruct (wrap_above (v + n) (va (cfg m)) (vb (cfg m))) as [Hw Hin];
    try assumption; try lia.
  destruct (write_cell_read m v (v + n) Hv) as (m1 & Hw1 & Hr1 & Hm1).
  destruct (write_cell_read m1 (v + n)
              ((v + n - va (cfg m)) mod (vb (cfg m) - va (cfg m) + 1)
               + va (cfg m)) Hr1) as (m2 & Hw2 & Hr2 & _).
  exists m2. split; [| split; [exact Hr2 | exact Hin]].
  unfold exec; cbv zeta. rewrite Hop, Hv, Hq. switch_consts.
  unfold written, ladd. run_bind. rewrite (long_ok _ L1). run_bind.
  rewrite (gtb_true _ _ Hover), Hpol. switch_consts.
  rewrite Hw1. run_bind. rewrite Hr1. run_bind. rewrite Hw. run_bind.
  exact Hw2.
Qed.

(** Under the behaviour [w], a decrement below [va] stores a value that is
    at most [va]: it is [va] when the candidate is a multiple of
    [vb - va + 1] below [va], and outside [[va, vb]] otherwise. *)
Lemma dec_value_wrap_escapes (m m' : locals) (x : instruction) (n v : Z) :
  instruction_ x = BF_OP_VDEC -> quantity x = Some n ->
  vw (cfg m) = BF_END_WRAP -> read_cell m = Ok v ->
  va (cfg m) <= vb (cfg m) -> v - n < va (cfg m) ->
  exec x m = Ok m' ->
  exists w, read_cell m' = Ok w /\
    w = va (cfg m) - (va (cfg m) - (v - n)) mod (vb (cfg m) - va (cfg m) + 1) /\
    w <= va (cfg m).
Proof.
  intros Hop Hq Hpol Hv Hrange Hunder H.
  unfold exec in H; cbv zeta in H. rewrite Hop, Hv, Hq in H.
  revert H. switch_consts. unfold written. run_bind. intros H.
  apply bind_Ok in H as (s & Hs & H).
  unfold lsub, long in Hs. destruct (in_long (v - n)); [| discriminate].
  injection Hs as <-.
  rewrite (proj2 (Z.ltb_lt _ _) Hunder), Hpol in H.
  revert H. switch_consts. intros H.
  destruct (write_cell_read m v (v - n) Hv) as (m1 & Hw1 & Hr1 & Hm1).
  rewrite Hw1 in H. revert H. run_bind. rewrite Hr1. run_bind. intros H.
  apply bind_Ok in H as (w & Hw & H).
  destruct (write_cell_read m1 (v - n) w Hr1) as (m2 & Hw2 & Hr2 & _).
  rewrite Hw2 in H. injection H as <-.
  exists w. split; [exact Hr2 |].
  exact (wrap_below _ _ _ _ Hrange Hunder Hw).
Qed.

(** C2 at the default configuration: with the source [-], the candidate is
    -1; it is stored as -1, outside [[0, 255]], where
    [(-1 - 0) mod (255 - 0 + 1) + 0] is 255. *)
Theorem wrap_value_underflow_escapes :
  wrap (-1) 0 255 = Ok (-1) /\
  main default_config (src "-") [] 1 ≫= read_cell = Ok (-1) /\
  (-1 - 0) mod (255 - 0 + 1) + 0 = 255.
Proof. repeat split; vm_compute; reflexivity. Qed.

(** X4.  Under the behaviour [w], a move past the last cell leaves the
    cell index at the candidate reduced modulo [cn + 1], not [cn]. *)
Lemma inc_pointer_wraps_modulo_succ (m : locals) (x : instruction) (n : Z) :
  instruction_ x = BF_OP_PINC -> quantity x = Some n ->
  cw (cfg m) = BF_END_WRAP ->
  0 < cn (cfg m) -> cn (cfg m) - 1 < ci m + n ->
  is_long (ci m + n) -> is_long (1 + cn (cfg m)) ->
  exists m', exec x m = Ok m' /\ ci m' = (ci m + n) mod (cn (cfg m) + 1).
Proof.
  intros Hop Hq Hpol Hcn Hover L1 L2.
  assert (L3 : is_long (cn (cfg m) - 1))
    by (unfold is_long, LONG_MIN, LONG_MAX in *; lia).
  eexists. unfold exec; cbv zeta. rewrite Hop, Hq. switch_consts.
  unfold written, ladd, lsub. run_bind. rewrite (long_ok _ L1). run_bind.
  rewrite (long_ok _ L3). run_bind.
  rewrite (gtb_true _ _ Hover), Hpol. switch_consts.
  rewrite wrap_index by (assumption || lia). run_bind.
  split; reflexivity.
Qed.

(** C3 with [cn = 10] and the behaviour [w]: the source [<] leaves the cell
    index at -1 and nine [>] followed by one more leave it at 10, where the
    candidates reduced modulo 10 are 9 and 0. *)
Theorem wrap_pointer_escapes :
  ci <$> main ten_cells_wrapping (src "<") [] 1 = Ok (-1) /\
  ci <$> main ten_cells_wrapping (src ">>>>>>>>>+>") [] 3 = Ok 10 /\
  (-1) mod 10 = 9 /\ 10 mod 10 = 0.
Proof. repeat split; vm_compute; reflexivity. Qed.

(** ** The compile loop: one character *)

Lemma foldable_not_bracket (i : Z) :
  foldable i = true -> i <> BF_OP_LSTART /\ i <> BF_OP_LEND.
Proof. intros H; split; intros ->; vm_compute in H; discriminate. Qed.

Lemma foldable_is_op (i : Z) : foldable i = true -> is_op i = true.
Proof. unfold is_op. now intros ->. Qed.

Lemma alter_last {A : Type} (f : A -> A) (l : list A) (x : A) :
  alter f (length (l ++ [x]) - 1)%nat (l ++ [x]) = l ++ [f x].
Proof.
  rewrite length_app; simpl.
  replace (length l + 1 - 1)%nat with (length l + 0)%nat by lia.
  now rewrite alter_app_r.
Qed.

Lemma fmap_alter_set_loop {B : Type} (f : instruction -> B) (t : Z) (n : nat)
    (l : list instruction) :
  (forall x, f (set_loop t x) = f x) ->
  f <$> alter (set_loop t) n l = f <$> l.
Proof.
  intros Hf. rewrite (list_fmap_alter f (set_loop t) id).
  - now apply list_alter_id.
  - apply Forall_forall. intros x _. apply Hf.
Qed.

Lemma compile_char_step (i : Z) (m m' : locals) :
  compile_char i m = Ok m' -> char_step i m m'.
Proof.
  unfold compile_char. destruct (foldable i) eqn:Hf.
  - destruct (last (im m)) as [x|] eqn:Hl.
    + destruct (Z.eqb_spec i (instruction_ x)) as [He|He].
      * destruct (quantity x) as [q|] eqn:Hq; simpl; intros [= <-].
        apply last_Some in Hl as [l Hl]. rewrite Hl, alter_last.
        now apply step_fold.
      * intros [= <-]. apply step_fresh; [exact Hf |].
        rewrite fmap_last, Hl; simpl. congruence.
    + intros [= <-]. apply step_fresh; [exact Hf |].
      rewrite fmap_last, Hl. discriminate.
  - destruct (Z.eqb_spec i BF_OP_LSTART) as [Ho|Ho].
    + intros [= <-]. now apply step_open.
    + destruct (Z.eqb_spec i BF_OP_LEND) as [Hc|Hc].
      * destruct (ls m) as [|t rest] eqn:Hls; [discriminate |].
        intros H. apply bind_Ok in H as (l & Hl & [= <-]).
        apply zalter_inv in Hl as [Ht ->].
        rewrite length_app in Ht; simpl in Ht.
        apply (step_close i m t rest); [exact Hc | exact Hls | lia].
      * intros [= <-]. apply step_skip. unfold is_op. rewrite Hf.
        now rewrite (proj2 (Z.eqb_neq _ _) Ho), (proj2 (Z.eqb_neq _ _) Hc).
Qed.

Lemma compile_char_skip (i : Z) (m : locals) :
  is_op i = false -> compile_char i m = Ok m.
Proof.
  unfold is_op, compile_char. intros H.
  apply orb_false_iff in H as [H H3]. apply orb_false_iff in H as [H1 H2].
  now rewrite H1, H2, H3.
Qed.

Lemma compile_loop_app (s1 s2 : list ascii) (m : locals) :
  compile_loop (s1 ++ s2) m = compile_loop s1 m ≫= compile_loop s2.
Proof.
  revert m. induction s1 as [|a s1 IH]; intros m; simpl; [reflexivity |].
  destruct (compile_char (chr a) m); simpl; auto.
Qed.

(** ** The invariant of the compile loop *)

Lemma compile_inv_start (c : config) (input : list byte) :
  compile_inv (start c input).
Proof. split; simpl; [reflexivity | constructor | constructor]. Qed.

Lemma quantity_alter_loop (t : Z) (n : nat) (l : list instruction) :
  Forall (fun x => if foldable (instruction_ x)
                   then exists q, quantity x = Some q /\ 1 <= q
                   else quantity x = None) l ->
  Forall (fun x => if foldable (instruction_ x)
                   then exists q, quantity x = Some q /\ 1 <= q
                   else quantity x = None) (alter (set_loop t) n l).
Proof.
  intros H. revert n. induction H as [|x l Hx Hl IH]; intros n.
  - constructor.
  - destruct n as [|n]; cbn; constructor; auto.
Qed.

Lemma char_step_inv (i : Z) (m m' : locals) :
  compile_inv m -> char_step i m m' -> compile_inv m'.
Proof.
  intros [Hii Hls Hq] Hstep. destruct Hstep; simpl.
  - now split.
  - split; simpl.
    + rewrite Hii, H0, !length_app. reflexivity.
    + rewrite H0 in Hls. rewrite !length_app in *. exact Hls.
    + rewrite H0 in Hq. apply Forall_app in Hq as [Hl Hx].
      apply Forall_app; split; [exact Hl |].
      constructor; [| constructor]. simpl. rewrite H1, H.
      apply Forall_inv in Hx. rewrite H1, H, H2 in Hx.
      destruct Hx as (q' & Heq & Hq'). assert (q' = q) by congruence.
      subst q'. exists (q + 1). split; [reflexivity | lia].
  - split; simpl.
    + rewrite Hii, length_app; simpl. lia.
    + rewrite length_app; simpl.
      eapply Forall_impl; [exact Hls |]. simpl; intros; lia.
    + apply Forall_app; split; [exact Hq |].
      constructor; [| constructor]. simpl. rewrite H. exists 1. split; [easy | lia].
  - split; simpl.
    + rewrite Hii, length_app; simpl. lia.
    + rewrite length_app; simpl. constructor; [lia |].
      eapply Forall_impl; [exact Hls |]. simpl; intros; lia.
    + apply Forall_app; split; [exact Hq |].
      constructor; [| constructor]. simpl. now rewrite H.
  - split; simpl.
    + rewrite Hii, length_alter, length_app; simpl. lia.
    + rewrite length_alter, length_app; simpl. rewrite H0 in Hls.
      apply Forall_inv_tail in Hls.
      eapply Forall_impl; [exact Hls |]. simpl; intros; lia.
    + apply quantity_alter_loop. apply Forall_app; split; [exact Hq |].
      constructor; [| constructor]. simpl. now rewrite H.
Qed.

Lemma compile_loop_inv (s : list ascii) (m m' : locals) :
  compile_inv m -> compile_loop s m = Ok m' -> compile_inv m'.
Proof.
  revert m. induction s as [|a s IH]; intros m Hinv; simpl.
  - now intros [= <-].
  - intros H. apply bind_Ok in H as (m1 & H1 & H2).
    apply (IH m1); [| exact H2].
    exact (char_step_inv _ _ _ Hinv (compile_char_step _ _ _ H1)).
Qed.

(** ** Brackets are not checked *)

Lemma compile_char_total (i : Z) (m : locals) :
  compile_inv m -> (i = BF_OP_LEND -> ls m <> []) ->
  exists m', compile_char i m = Ok m'.
Proof.
  intros [Hii Hls Hq] Hne. unfold compile_char.
  destruct (foldable i) eqn:Hf.
  - destruct (last (im m)) as [x|] eqn:Hl; [| eauto].
    destruct (Z.eqb_spec i (instruction_ x)) as [He|He]; [| eauto].
    apply last_Some in Hl as [l Hl]. rewrite Hl in Hq.
    apply Forall_app in Hq as [_ Hx]. apply Forall_inv in Hx.
    rewrite <- He, Hf in Hx. destruct Hx as (q & -> & _). simpl. eauto.
  - destruct (i =? BF_OP_LSTART); [eauto |].
    destruct (Z.eqb_spec i BF_OP_LEND) as [Hc|Hc]; [| eauto].
    destruct (ls m) as [|t rest] eqn:E; [now specialize (Hne Hc) |].
    apply Forall_inv in Hls.
    rewrite zalter_Ok by (rewrite length_app; simpl; lia).
    simpl. eauto.
Qed.

Lemma char_step_depth (i : Z) (m m' : locals) :
  char_step i m m' ->
  length (ls m') =
    (if i =? BF_OP_LSTART then S (length (ls m))
     else if i =? BF_OP_LEND then pred (length (ls m))
     else length (ls m)) /\
  (i = BF_OP_LEND -> ls m <> []).
Proof.
  intros Hstep. destruct Hstep as [Hop|l x q Hf _ _ _|Hf _|Ho|t rest Hc Hls _].
  - unfold is_op in Hop. apply orb_false_iff in Hop as [Hop H2].
    apply orb_false_iff in Hop as [_ H1]. rewrite H1, H2.
    split; [reflexivity |]. intros ->. discriminate H2.
  - destruct (foldable_not_bracket i Hf) as [H1 H2].
    rewrite (proj2 (Z.eqb_neq _ _) H1), (proj2 (Z.eqb_neq _ _) H2).
    split; [reflexivity | intros E; contradiction].
  - destruct (foldable_not_bracket i Hf) as [H1 H2].
    rewrite (proj2 (Z.eqb_neq _ _) H1), (proj2 (Z.eqb_neq _ _) H2).
    split; [reflexivity | intros E; contradiction].
  - subst i. simpl. split; [reflexivity | discriminate].
  - subst i. simpl. rewrite Hls. simpl. split; [reflexivity | discriminate].
Qed.

(** A source in which no [[]] arrives without a pending [[[] is compiled
    to the end, and the loop stack then holds the brackets left open. *)
Lemma compile_loop_scan (s : list ascii) (m : locals) (d : nat) :
  compile_inv m ->
  bracket_scan s (length (ls m)) = Some d ->
  exists m', compile_loop s m = Ok m' /\ length (ls m') = d.
Proof.
  revert m. induction s as [|a s IH]; intros m Hinv; simpl.
  - intros [= <-]. eauto.
  - intros Hscan.
    assert (Hne : chr a = BF_OP_LEND -> ls m <> []).
    { intros Hc Hnil. rewrite Hc, Hnil in Hscan. simpl in Hscan. discriminate. }
    destruct (compile_char_total (chr a) m Hinv Hne) as [m1 H1].
    rewrite H1; simpl.
    pose proof (compile_char_step _ _ _ H1) as Hstep.
    destruct (char_step_depth _ _ _ Hstep) as [Hd _].
    apply (IH m1); [exact (char_step_inv _ _ _ Hinv Hstep) |].
    rewrite Hd. destruct (chr a =? BF_OP_LSTART); [exact Hscan |].
    destruct (chr a =? BF_OP_LEND); [| exact Hscan].
    destruct (length (ls m)); [discriminate | exact Hscan].
Qed.

(** A [[]] that arrives when no [[[] is pending makes the loop read
    [ls[-1]]. *)
Lemma compile_loop_underflow (s : list ascii) (m : locals) :
  compile_inv m ->
  bracket_scan s (length (ls m)) = None ->
  compile_loop s m = Undefined.
Proof.
  revert m. induction s as [|a s IH]; intros m Hinv; simpl; [discriminate |].
  intros Hscan.
  destruct (ls m) as [|t rest] eqn:Hls;
    [destruct (Z.eqb_spec (chr a) BF_OP_LEND) as [Hc|Hc] |].
  - unfold compile_char. rewrite Hc, Hls. reflexivity.
  - destruct (compile_char_total (chr a) m Hinv (fun H => False_ind _ (Hc H)))
      as [m1 H1].
    rewrite H1; simpl.
    pose proof (compile_char_step _ _ _ H1) as Hstep.
    destruct (char_step_depth _ _ _ Hstep) as [Hd _].
    apply (IH m1); [exact (char_step_inv _ _ _ Hinv Hstep) |].
    rewrite Hd, Hls. simpl in *.
    apply Z.eqb_neq in Hc. rewrite Hc in *.
    destruct (chr a =? BF_OP_LSTART); exact Hscan.
  - assert (Hne : chr a = BF_OP_LEND -> ls m <> []) by (rewrite Hls; easy).
    destruct (compile_char_total (chr a) m Hinv Hne) as [m1 H1].
    rewrite H1; simpl.
    pose proof (compile_char_step _ _ _ H1) as Hstep.
    destruct (char_step_depth _ _ _ Hstep) as [Hd _].
    apply (IH m1); [exact (char_step_inv _ _ _ Hinv Hstep) |].
    rewrite Hd, Hls. simpl in *.
    destruct (chr a =? BF_OP_LSTART); [exact Hscan |].
    destruct (chr a =? BF_OP_LEND); exact Hscan.
Qed.

(** C1 as stated fails for the source [+[]: its bracket stays open, yet it
    is compiled to two instructions, both are executed, and [main] returns
    with the cell at 1. *)
Lemma unmatched_open_is_compiled_and_run :
  bracket_scan (src "+[") 0 = Some 1%nat /\
  compile default_config (src "+[") =
    Ok [mk_instruction BF_OP_VINC (Some 1) None;
        mk_instruction BF_OP_LSTART None None] /\
  main default_config (src "+[") [] 2 ≫= read_cell = Ok 1 /\
  ~ (exists msg, main default_config (src "+[") [] 2 = Die msg).
Proof.
  split; [reflexivity |]. split; [reflexivity |].
  split; [vm_compute; reflexivity |].
  intros [msg H]. vm_compute in H. discriminate.
Qed.

(** ** Bracket instructions carry no quantity *)

Lemma bracket_quantity_unwritten
    (c : config) (s : list ascii) (l : list instruction) (x : instruction) :
  compile c s = Ok l -> x ∈ l ->
  instruction_ x = BF_OP_LSTART \/ instruction_ x = BF_OP_LEND ->
  quantity x = None.
Proof.
  unfold compile. intros H Hx Hop.
  apply bind_Ok in H as (m & Hm & [= <-]).
  pose proof (compile_loop_inv _ _ _ (compile_inv_start c []) Hm) as [_ _ Hq].
  rewrite Forall_forall in Hq. specialize (Hq x Hx).
  destruct Hop as [Hop|Hop]; rewrite Hop in Hq; exact Hq.
Qed.

(** A bracket is never folded: each one adds an instruction of its own. *)
Lemma bracket_never_folds (i : Z) (m m' : locals) :
  i = BF_OP_LSTART \/ i = BF_OP_LEND ->
  compile_char i m = Ok m' ->
  length (im m') = S (length (im m)) /\
  (instruction_ <$> last (im m')) = Some i.
Proof.
  intros Hi H. apply compile_char_step in H.
  destruct H as [Hop|l x q Hf _ _ _|Hf _|Ho|t rest Hc Hls _]; simpl.
  - destruct Hi as [-> | ->]; discriminate Hop.
  - destruct (foldable_not_bracket i Hf). now destruct Hi.
  - destruct (foldable_not_bracket i Hf). now destruct Hi.
  - rewrite length_app, last_snoc. simpl. split; [lia | reflexivity].
  - rewrite length_alter, length_app. simpl. split; [lia |].
    rewrite <- fmap_last, fmap_alter_set_loop by reflexivity.
    now rewrite fmap_snoc, last_snoc.
Qed.

(** C7 at the source [[]]: neither instruction has a quantity, and dump
    mode reads it nevertheless; for [+++.] dump mode prints the two
    quantities. *)
Theorem dump_reads_unwritten_quantity :
  compile dumping (src "[]") =
    Ok [mk_instruction BF_OP_LSTART None (Some 1);
        mk_instruction BF_OP_LEND None (Some 0)] /\
  main dumping (src "[]") [] 0 = Undefined /\
  stdout <$> main dumping (src "+++.") [] 0 =
    Ok (bytes_of "+ 3" ++ [to_byte 9] ++ bytes_of ". 1" ++
        [to_byte 9; to_byte 10]).
Proof. repeat split; vm_compute; reflexivity. Qed.

(** ** Folding *)

Lemma chr_inj (a b : ascii) : chr a = chr b -> a = b.
Proof.
  unfold chr. intros H. apply N2Z.inj in H.
  rewrite <- (ascii_N_embedding a), <- (ascii_N_embedding b). now f_equal.
Qed.

(** The compile loop refines the folding of the printed fields. *)
Lemma char_step_fold (i : Z) (m m' : locals) :
  char_step i m m' ->
  reverse (printed <$> im m') = fold_char i (reverse (printed <$> im m)).
Proof.
  intros Hstep.
  destruct Hstep as [Hop|l x q Hf Hl Hx Hq|Hf Hlast|Ho|t rest Hc Hls Ht];
    simpl; unfold fold_char.
  - rewrite Hop. unfold is_op in Hop.
    apply orb_false_iff in Hop as [Hop _].
    apply orb_false_iff in Hop as [-> _]. reflexivity.
  - rewrite Hf, Hl, !fmap_snoc, !reverse_snoc. simpl.
    rewrite Hx, Z.eqb_refl. unfold bump, printed; simpl. now rewrite Hq, Hx.
  - rewrite Hf, fmap_snoc, reverse_snoc.
    destruct (im m) as [|x0 l0] using rev_ind; [reflexivity |].
    rewrite fmap_snoc, reverse_snoc. simpl.
    rewrite fmap_snoc, last_snoc in Hlast.
    destruct (Z.eqb_spec i (instruction_ x0)) as [->|_]; [| reflexivity].
    now destruct Hlast.
  - subst i. rewrite fmap_snoc, reverse_snoc. reflexivity.
  - subst i. rewrite fmap_alter_set_loop by reflexivity.
    rewrite fmap_snoc, reverse_snoc. reflexivity.
Qed.

Lemma compile_loop_fold (s : list ascii) (m m' : locals) :
  compile_loop s m = Ok m' ->
  reverse (printed <$> im m') = fold_source s (reverse (printed <$> im m)).
Proof.
  revert m. induction s as [|a s IH]; intros m; simpl.
  - now intros [= <-].
  - intros H. apply bind_Ok in H as (m1 & H1 & H2).
    rewrite (IH _ H2). f_equal.
    apply char_step_fold, compile_char_step, H1.
Qed.

Lemma fold_source_app (s1 s2 : list ascii) (rl : list (Z * option Z)) :
  fold_source (s1 ++ s2) rl = fold_source s2 (fold_source s1 rl).
Proof. revert rl. induction s1 as [|a s1 IH]; intros rl; simpl; auto. Qed.

Lemma fold_char_skip (i : Z) (rl : list (Z * option Z)) :
  is_op i = false -> fold_char i rl = rl.
Proof.
  intros H. unfold fold_char. rewrite H. unfold is_op in H.
  apply orb_false_iff in H as [H _]. apply orb_false_iff in H as [-> _].
  reflexivity.
Qed.

(** After an instruction for [a], [j] more [a] (among characters that are
    no operators) add [j] to its quantity. *)
Lemma fold_source_more (a : ascii) (run : list ascii) (j : nat)
    (q : Z) (r : list (Z * option Z)) :
  foldable (chr a) = true ->
  strip run = replicate j a ->
  fold_source run ((chr a, Some q) :: r) = (chr a, Some (q + Z.of_nat j)) :: r.
Proof.
  intros Hf. revert j q. induction run as [|c run IH]; intros j q; simpl.
  - destruct j; [| discriminate]. intros _. now rewrite Z.add_0_r.
  - destruct (is_op (chr c)) eqn:Hop.
    + destruct j as [|j]; [discriminate |]. simpl. intros [= -> Hrun].
      unfold fold_char at 1. rewrite Hf. simpl. rewrite Z.eqb_refl.
      unfold bump; simpl. rewrite (IH j (q + 1) Hrun).
      replace (q + 1 + Z.of_nat j) with (q + Z.of_nat (S j)) by lia.
      reflexivity.
    + intros Hrun. rewrite fold_char_skip by exact Hop. now apply IH.
Qed.

(** A run of [S j] characters [a] after anything but an instruction for
    [a] gives one instruction, with quantity [S j]. *)
Lemma fold_source_run (a : ascii) (run : list ascii) (j : nat)
    (rl : list (Z * option Z)) :
  foldable (chr a) = true ->
  strip run = replicate (S j) a ->
  head (fst <$> rl) <> Some (chr a) ->
  fold_source run rl = (chr a, Some (Z.of_nat (S j))) :: rl.
Proof.
  intros Hf. induction run as [|c run IH]; simpl; [discriminate |].
  destruct (is_op (chr c)) eqn:Hop.
  - intros [= -> Hrun] Hhd.
    assert (Hfresh : fold_char (chr a) rl = (chr a, Some 1) :: rl).
    { unfold fold_char. rewrite Hf. destruct rl as [|e r]; [reflexivity |].
      destruct (Z.eqb_spec (chr a) e.1) as [He|_]; [| reflexivity].
      destruct Hhd. simpl. now rewrite He. }
    rewrite Hfresh, (fold_source_more a run j 1 rl Hf Hrun).
    replace (1 + Z.of_nat j) with (Z.of_nat (S j)) by lia. reflexivity.
  - intros Hrun Hhd. rewrite fold_char_skip by exact Hop. now apply IH.
Qed.

(** Later characters leave the instructions before the latest one alone,
    and keep the latest one's type. *)
Lemma fold_source_suffix (s : list ascii) (e : Z * option Z)
    (r : list (Z * option Z)) :
  exists tl q, fold_source s (e :: r) = tl ++ (e.1, q) :: r.
Proof.
  revert e r. induction s as [|c s IH]; intros e r; simpl.
  - exists [], e.2. now destruct e.
  - unfold fold_char. destruct (foldable (chr c)).
    + destruct (Z.eqb_spec (chr c) e.1) as [He|He].
      * destruct (IH (bump e) r) as (tl & q & ->). now exists tl, q.
      * destruct (IH (chr c, Some 1) (e :: r)) as (tl & q & ->).
        exists (tl ++ [(chr c, q)]), e.2. simpl.
        rewrite <- app_assoc. now destruct e.
    + destruct (is_op (chr c)).
      * destruct (IH (chr c, None) (e :: r)) as (tl & q & ->).
        exists (tl ++ [(chr c, q)]), e.2. simpl.
        rewrite <- app_assoc. now destruct e.
      * apply IH.
Qed.

(** If the next operator is not [a], an instruction for [a] stays as it
    is and is followed by an instruction of another type. *)
Lemma fold_source_after (a : ascii) (s : list ascii) (e : Z * option Z)
    (r : list (Z * option Z)) :
  e.1 = chr a ->
  head (strip s) <> Some a ->
  exists tl, fold_source s (e :: r) = tl ++ e :: r /\
             last (fst <$> tl) <> Some (chr a).
Proof.
  intros He. induction s as [|c s IH]; simpl.
  - intros _. exists []. split; [reflexivity | discriminate].
  - destruct (is_op (chr c)) eqn:Hop.
    + simpl. intros Hc.
      assert (Hne : chr c <> chr a) by (intros E; apply chr_inj in E; congruence).
      assert (Hnew : exists o, fold_char (chr c) (e :: r) = (chr c, o) :: e :: r).
      { unfold fold_char. destruct (foldable (chr c)).
        - rewrite He. rewrite (proj2 (Z.eqb_neq _ _) Hne). eauto.
        - rewrite Hop. eauto. }
      destruct Hnew as [o ->].
      destruct (fold_source_suffix s (chr c, o) (e :: r)) as (tl & q & ->).
      exists (tl ++ [(chr c, q)]). rewrite <- app_assoc. split; [reflexivity |].
      rewrite fmap_snoc, last_snoc. simpl. congruence.
    + intros Hs. rewrite fold_char_skip by exact Hop. now apply IH.
Qed.

(** The latest instruction has the type of the last operator read. *)
Lemma fold_source_head (s : list ascii) (rl : list (Z * option Z)) :
  head (fst <$> fold_source s rl) =
    match last (strip s) with
    | Some c => Some (chr c)
    | None => head (fst <$> rl)
    end.
Proof.
  revert rl. induction s as [|c s IH]; intros rl; simpl; [reflexivity |].
  rewrite IH. destruct (is_op (chr c)) eqn:Hop.
  - rewrite last_cons. destruct (last (strip s)); [reflexivity |].
    unfold fold_char. destruct (foldable (chr c)).
    + destruct rl as [|e r]; [reflexivity |].
      destruct (Z.eqb_spec (chr c) e.1) as [->|_]; reflexivity.
    + rewrite Hop. reflexivity.
  - now rewrite fold_char_skip by exact Hop.
Qed.

(** C5.  A maximal run of [k >= 1] identical foldable operator characters
    (characters that are no operators may stand anywhere and are ignored)
    is compiled to exactly one instruction, of that character's type and
    with quantity [k]: the instructions read [lpre], then that instruction,
    then [tl], where [lpre] is what the text before the run compiles to and
    neither the last instruction of [lpre] nor the first of [tl] has the
    run's type.  The source is one the compile loop is defined on: no [[]]
    arrives without a pending [[[]. *)
Theorem folding_of_runs
    (c : config) (pre run post : list ascii) (a : ascii) (k d : nat) :
  foldable (chr a) = true ->
  strip run = replicate k a -> (1 <= k)%nat ->
  last (strip pre) <> Some a ->
  head (strip post) <> Some a ->
  bracket_scan (pre ++ run ++ post) 0 = Some d ->
  exists l lpre tl,
    compile c (pre ++ run ++ post) = Ok l /\
    compile c pre = Ok lpre /\
    printed <$> l = (printed <$> lpre) ++ (chr a, Some (Z.of_nat k)) :: tl /\
    last (instruction_ <$> lpre) <> Some (chr a) /\
    head (fst <$> tl) <> Some (chr a).
Proof.
  intros Hf Hrun Hk Hpre Hpost Hscan.
  destruct (compile_loop_scan _ (start c []) d (compile_inv_start c []) Hscan)
    as (m3 & H3 & _).
  pose proof H3 as H13. rewrite compile_loop_app in H13.
  apply bind_Ok in H13 as (m1 & H1 & _).
  pose proof (compile_loop_fold _ _ _ H1) as F1.
  pose proof (compile_loop_fold _ _ _ H3) as F3.
  simpl in F1, F3. rewrite !fold_source_app, <- F1 in F3.
  assert (Hhd : head (fst <$> reverse (printed <$> im m1)) <> Some (chr a)).
  { rewrite F1, fold_source_head. destruct (last (strip pre)) as [b|].
    - intros [= E]. apply chr_inj in E. congruence.
    - discriminate. }
  destruct k as [|j]; [lia |].
  rewrite (fold_source_run a run j _ Hf Hrun Hhd) in F3.
  destruct (fold_source_after a post (chr a, Some (Z.of_nat (S j)))
              (reverse (printed <$> im m1)) eq_refl Hpost) as (tl & Htl & Hlast).
  rewrite Htl in F3. apply (f_equal reverse) in F3.
  rewrite reverse_involutive, reverse_app, reverse_cons,
    reverse_involutive, <- app_assoc in F3.
  exists (im m3), (im m1), (reverse tl).
  split; [unfold compile; now rewrite H3 |].
  split; [unfold compile; now rewrite H1 |].
  split; [exact F3 |]. split.
  - rewrite fmap_reverse, head_reverse in Hhd.
    now rewrite <- list_fmap_compose in Hhd.
  - now rewrite fmap_reverse, head_reverse.
Qed.

Lemma folding_of_runs_witness :
  exists l lpre tl,
    compile default_config (src "[-]" ++ src "+ +x+" ++ src ">.") = Ok l /\
    compile default_config (src "[-]") = Ok lpre /\
    printed <$> l = (printed <$> lpre) ++ (chr "+", Some (Z.of_nat 3)) :: tl /\
    last (instruction_ <$> lpre) <> Some (chr "+") /\
    head (fst <$> tl) <> Some (chr "+").
Proof.
  apply (folding_of_runs default_config (src "[-]") (src "+ +x+") (src ">.")
           "+"%char 3 0); first [reflexivity | lia | discriminate].
Defined.

(** ** The compiled program read back *)

Lemma decode_snoc (l : list instruction) (x : instruction) :
  decode (l ++ [x]) = decode l ++ expand x.
Proof.
  unfold decode. rewrite bind_app, bind_singleton. reflexivity.
Qed.

Lemma decode_alter_set_loop (t : Z) (n : nat) (l : list instruction) :
  decode (alter (set_loop t) n l) = decode l.
Proof.
  unfold decode. revert n. induction l as [|x l IH]; intros n; [reflexivity |].
  destruct n as [|n]; cbn [alter list_alter]; rewrite !bind_cons.
  - reflexivity.
  - f_equal. apply IH.
Qed.

Lemma char_step_decode (i : Z) (m m' : locals) :
  compile_inv m -> char_step i m m' ->
  decode (im m') = decode (im m) ++ (if is_op i then [i] else []).
Proof.
  intros [_ _ Hq] Hstep.
  destruct Hstep as [Hop|l x q Hf Hl Hx Hqx|Hf Hlast|Ho|t rest Hc Hls Ht];
    simpl.
  - rewrite Hop. now rewrite app_nil_r.
  - rewrite (foldable_is_op i Hf), Hl, !decode_snoc, <- app_assoc. f_equal.
    rewrite Hl in Hq. apply Forall_app in Hq as [_ Hxq].
    apply Forall_inv in Hxq. rewrite Hx, Hf, Hqx in Hxq.
    destruct Hxq as (q' & [= <-] & Hq1).
    unfold expand; simpl. rewrite Hqx, Hx. simpl.
    replace (Z.to_nat (q + 1)) with (S (Z.to_nat q)) by lia.
    apply replicate_S_end.
  - now rewrite (foldable_is_op i Hf), decode_snoc.
  - subst i. now rewrite decode_snoc.
  - subst i. now rewrite decode_alter_set_loop, decode_snoc.
Qed.

Lemma compile_loop_decode (s : list ascii) (m m' : locals) :
  compile_inv m -> compile_loop s m = Ok m' ->
  decode (im m') = decode (im m) ++ (chr <$> strip s).
Proof.
  revert m. induction s as [|a s IH]; intros m Hinv; simpl.
  - intros [= <-]. now rewrite app_nil_r.
  - intros H. apply bind_Ok in H as (m1 & H1 & H2).
    pose proof (compile_char_step _ _ _ H1) as Hstep.
    rewrite (IH m1 (char_step_inv _ _ _ Hinv Hstep) H2).
    rewrite (char_step_decode _ _ _ Hinv Hstep), <- app_assoc.
    now destruct (is_op (chr a)).
Qed.

(** The bracket instructions are the bracket characters of the source,
    one for one and in order. *)
Lemma char_step_brackets (i : Z) (m m' : locals) :
  char_step i m m' ->
  List.filter is_bracket (instruction_ <$> im m') =
    List.filter is_bracket (instruction_ <$> im m) ++
      (if is_bracket i then [i] else []).
Proof.
  intros Hstep.
  assert (Hnb : forall a, foldable a = true -> is_bracket a = false).
  { intros a Ha. destruct (foldable_not_bracket a Ha) as [H1 H2].
    unfold is_bracket.
    now rewrite (proj2 (Z.eqb_neq _ _) H1), (proj2 (Z.eqb_neq _ _) H2). }
  destruct Hstep as [Hop|l x q Hf Hl Hx Hqx|Hf Hlast|Ho|t rest Hc Hls Ht];
    simpl.
  - unfold is_op in Hop. apply orb_false_iff in Hop as [Hop H2].
    apply orb_false_iff in Hop as [_ H1]. unfold is_bracket.
    now rewrite H1, H2, app_nil_r.
  - rewrite (Hnb i Hf), app_nil_r, Hl, !fmap_snoc. reflexivity.
  - rewrite fmap_snoc, List.filter_app. simpl. now rewrite (Hnb i Hf).
  - subst i. now rewrite fmap_snoc, List.filter_app.
  - subst i. rewrite fmap_alter_set_loop by reflexivity.
    now rewrite fmap_snoc, List.filter_app.
Qed.

Lemma compile_loop_brackets_from (s : list ascii) (m m' : locals) :
  compile_loop s m = Ok m' ->
  List.filter is_bracket (instruction_ <$> im m') =
    List.filter is_bracket (instruction_ <$> im m) ++
      List.filter is_bracket (chr <$> s).
Proof.
  revert m. induction s as [|a s IH]; intros m; simpl.
  - intros [= <-]. now rewrite app_nil_r.
  - intros H. apply bind_Ok in H as (m1 & H1 & H2).
    rewrite (IH m1 H2), (char_step_brackets _ _ _ (compile_char_step _ _ _ H1)).
    rewrite <- app_assoc. f_equal.
    change (chr <$> a :: s) with (chr a :: (chr <$> s)). simpl.
    now destruct (is_bracket (chr a)).
Qed.

Lemma compile_loop_brackets (s : list ascii) (m' : locals) (c : config)
    (input : list byte) :
  compile_loop s (start c input) = Ok m' ->
  List.filter is_bracket (instruction_ <$> im m') =
    List.filter is_bracket (chr <$> s).
Proof. intros H. now rewrite (compile_loop_brackets_from s _ _ H). Qed.

(** ** Loop matching *)

Lemma shift_snoc_close (x : Z) (n : nat) (r : nat + nat) :
  shift (snoc_close x n r) = snoc_close x (S n) (shift r).
Proof.
  destruct r as [k|d]; simpl; [reflexivity |].
  destruct (x =? BF_OP_LEND); [now destruct d |].
  now destruct (x =? BF_OP_LSTART).
Qed.

Lemma find_close_snoc (l : list Z) (x : Z) (d : nat) :
  find_close (l ++ [x]) d = snoc_close x (length l) (find_close l d).
Proof.
  revert d. induction l as [|i l IH]; intros d; simpl.
  - destruct (x =? BF_OP_LEND); [now destruct d |].
    now destruct (x =? BF_OP_LSTART).
  - destruct (i =? BF_OP_LEND).
    + destruct d as [|d']; [reflexivity |].
      now rewrite IH, shift_snoc_close.
    + destruct (i =? BF_OP_LSTART); now rewrite IH, shift_snoc_close.
Qed.

Lemma find_close_inl (l : list Z) (d k : nat) :
  find_close l d = inl k -> l !! k = Some BF_OP_LEND.
Proof.
  revert d k. induction l as [|i l IH]; intros d k; simpl; [discriminate |].
  destruct (Z.eqb_spec i BF_OP_LEND) as [->|_].
  - destruct d as [|d'].
    + now intros [= <-].
    + destruct (find_close l d') as [k'|] eqn:E; simpl; [| discriminate].
      intros [= <-]. simpl. eauto.
  - destruct (i =? BF_OP_LSTART).
    + destruct (find_close l (S d)) as [k'|] eqn:E; simpl; [| discriminate].
      intros [= <-]. simpl. eauto.
    + destruct (find_close l d) as [k'|] eqn:E; simpl; [| discriminate].
      intros [= <-]. simpl. eauto.
Qed.

(** [find_close] from index [S i] after one more instruction type. *)
Lemma find_close_drop_snoc (ops : list Z) (x : Z) (i : nat) :
  (i < length ops)%nat ->
  find_close (drop (S i) (ops ++ [x])) 0 =
    snoc_close x (length ops - S i) (find_close (drop (S i) ops) 0).
Proof.
  intros Hi. rewrite drop_app_le by lia.
  now rewrite find_close_snoc, length_drop.
Qed.

Lemma lookup_snoc_lt {A : Type} (l : list A) (x y : A) (i : nat) :
  (l ++ [x]) !! i = Some y -> y <> x -> (i < length l)%nat /\ l !! i = Some y.
Proof.
  intros H Hne. apply lookup_snoc_Some in H as [H|[_ H]]; [exact H | congruence].
Qed.

Lemma match_inv_nil : match_inv [] [] [].
Proof. split; [reflexivity | | |]; intros ? ?; rewrite lookup_nil; discriminate. Qed.

Lemma match_inv_other (ops : list Z) (lps : list (option Z)) (st : list Z)
    (x : Z) :
  x <> BF_OP_LSTART -> x <> BF_OP_LEND ->
  match_inv ops lps st -> match_inv (ops ++ [x]) (lps ++ [None]) st.
Proof.
  intros Ho Hc [Hlen Hst Hop Hcl].
  assert (Hsame : forall n r, snoc_close x n r = r).
  { intros n [k|d]; simpl; [reflexivity |].
    now rewrite (proj2 (Z.eqb_neq _ _) Ho), (proj2 (Z.eqb_neq _ _) Hc). }
  split.
  - rewrite !length_app, Hlen. reflexivity.
  - intros p t Hp. destruct (Hst p t Hp) as (n & -> & Hn & Hf).
    exists n. split; [reflexivity |].
    pose proof (lookup_lt_Some _ _ _ Hn) as Hlt.
    split; [now apply lookup_app_l_Some |].
    now rewrite find_close_drop_snoc, Hsame by lia.
  - intros i Hi. apply lookup_snoc_lt in Hi as [Hlt Hi]; [| congruence].
    specialize (Hop i Hi). rewrite find_close_drop_snoc, Hsame by lia.
    destruct (find_close (drop (S i) ops) 0) as [k|p];
      destruct Hop as [H1 H2]; split;
      try apply lookup_app_l_Some; assumption.
  - intros j Hj. apply lookup_snoc_lt in Hj as [Hlt Hj]; [| congruence].
    destruct (Hcl j Hj) as (i & H1 & H2 & H3 & H4).
    exists i. repeat split; try apply lookup_app_l_Some; assumption.
Qed.

Lemma match_inv_open (ops : list Z) (lps : list (option Z)) (st : list Z) :
  match_inv ops lps st ->
  match_inv (ops ++ [BF_OP_LSTART]) (lps ++ [None])
    (Z.of_nat (length ops) :: st).
Proof.
  intros [Hlen Hst Hop Hcl]. split.
  - rewrite !length_app, Hlen. reflexivity.
  - intros [|p] t Hp; simpl in Hp.
    + injection Hp as <-. exists (length ops). split; [reflexivity |].
      split; [now apply list_lookup_middle |].
      rewrite drop_ge by (rewrite length_app; simpl; lia). reflexivity.
    + destruct (Hst p t Hp) as (n & -> & Hn & Hf).
      exists n. split; [reflexivity |].
      pose proof (lookup_lt_Some _ _ _ Hn) as Hlt.
      split; [now apply lookup_app_l_Some |].
      rewrite find_close_drop_snoc, Hf by lia. reflexivity.
  - intros i Hi. apply lookup_snoc_Some in Hi as [[Hlt Hi]|[-> _]].
    + specialize (Hop i Hi). rewrite find_close_drop_snoc by lia.
      destruct (find_close (drop (S i) ops) 0) as [k|p];
        destruct Hop as [H1 H2]; simpl; split;
        try apply lookup_app_l_Some; assumption.
    + rewrite drop_ge by (rewrite length_app; simpl; lia). simpl.
      split; [reflexivity |]. now apply list_lookup_middle.
  - intros j Hj. apply lookup_snoc_lt in Hj as [Hlt Hj]; [| discriminate].
    destruct (Hcl j Hj) as (i & H1 & H2 & H3 & H4).
    exists i. repeat split; try apply lookup_app_l_Some; assumption.
Qed.

Lemma match_inv_close (ops : list Z) (lps : list (option Z)) (rest : list Z)
    (t : Z) :
  match_inv ops lps (t :: rest) ->
  match_inv (ops ++ [BF_OP_LEND])
    (alter (fun _ => Some (Z.of_nat (length ops))) (Z.to_nat t)
       (lps ++ [Some t]))
    rest.
Proof.
  intros [Hlen Hst Hop Hcl].
  destruct (Hst O t eq_refl) as (n & -> & Hn & Hfn).
  pose proof (lookup_lt_Some _ _ _ Hn) as Hlt.
  pose proof (Hop n Hn) as Hpn. rewrite Hfn in Hpn. destruct Hpn as [_ Hpn].
  rewrite Nat2Z.id.
  set (lps' := alter (fun _ => Some (Z.of_nat (length ops))) n
                 (lps ++ [Some (Z.of_nat n)])).
  assert (Hne : forall i v, i <> n -> lps !! i = Some v -> lps' !! i = Some v).
  { intros i v Hi Hv. unfold lps'. rewrite list_lookup_alter_ne by congruence.
    now apply lookup_app_l_Some. }
  assert (Hat : lps' !! n = Some (Some (Z.of_nat (length ops)))).
  { unfold lps'. rewrite list_lookup_alter_eq.
    now rewrite (lookup_app_l_Some _ _ _ _ Hpn). }
  assert (Hnew : lps' !! length ops = Some (Some (Z.of_nat n))).
  { unfold lps'. rewrite list_lookup_alter_ne by lia.
    now apply list_lookup_middle. }
  split.
  - unfold lps'. rewrite length_alter, !length_app, Hlen. reflexivity.
  - intros p t Hp. destruct (Hst (S p) t Hp) as (n' & -> & Hn' & Hf').
    exists n'. split; [reflexivity |].
    pose proof (lookup_lt_Some _ _ _ Hn') as Hlt'.
    split; [now apply lookup_app_l_Some |].
    rewrite find_close_drop_snoc, Hf' by lia. reflexivity.
  - intros i Hi. apply lookup_snoc_lt in Hi as [Hlti Hi]; [| discriminate].
    specialize (Hop i Hi). rewrite find_close_drop_snoc by lia.
    destruct (find_close (drop (S i) ops) 0) as [k|[|p]] eqn:Hfi;
      destruct Hop as [H1 H2]; simpl.
    + split; (apply Hne; [intros E | assumption]).
      * subst i. congruence.
      * replace n with (S i + k)%nat in Hpn by lia. congruence.
    + simpl in H1. injection H1 as H1. apply Nat2Z.inj in H1. subst i.
      replace (S (n + (length ops - S n)))%nat with (length ops) by lia.
      split; assumption.
    + split; [exact H1 |]. apply Hne; [| exact H2].
      intros ->. congruence.
  - intros j Hj. apply lookup_snoc_Some in Hj as [[Hltj Hj]|[-> _]].
    + destruct (Hcl j Hj) as (i & H1 & H2 & H3 & H4).
      exists i. split; [apply Hne; [intros ->; congruence | exact H1] |].
      split; [exact H2 |]. split; [now apply lookup_app_l_Some |].
      apply Hne; [intros ->; congruence | exact H4].
    + exists n. split; [exact Hnew |]. split; [exact Hlt |].
      split; [now apply lookup_app_l_Some | exact Hat].
Qed.

Lemma char_step_match (i : Z) (m m' : locals) :
  compile_inv m -> char_step i m m' ->
  match_inv (instruction_ <$> im m) (loop <$> im m) (ls m) ->
  match_inv (instruction_ <$> im m') (loop <$> im m') (ls m').
Proof.
  intros [Hii _ _] Hstep Hinv.
  assert (Hlen : ii m = Z.of_nat (length (instruction_ <$> im m)))
    by now rewrite length_fmap.
  destruct Hstep as [Hop|l x q Hf Hl Hx Hq|Hf Hlast|Ho|t rest Hc Hls Ht]; simpl.
  - exact Hinv.
  - rewrite Hl, !fmap_snoc in Hinv. rewrite !fmap_snoc. exact Hinv.
  - destruct (foldable_not_bracket i Hf) as [H1 H2].
    rewrite !fmap_snoc. now apply match_inv_other.
  - subst i. rewrite !fmap_snoc, Hlen. simpl. now apply match_inv_open.
  - subst i. rewrite fmap_alter_set_loop by reflexivity.
    rewrite (list_fmap_alter loop (set_loop (ii m)) (fun _ => Some (ii m)))
      by (apply Forall_forall; reflexivity).
    rewrite !fmap_snoc, Hlen. simpl. apply match_inv_close.
    now rewrite <- Hls.
Qed.

Lemma compile_loop_match (s : list ascii) (m m' : locals) :
  compile_inv m ->
  match_inv (instruction_ <$> im m) (loop <$> im m) (ls m) ->
  compile_loop s m = Ok m' ->
  match_inv (instruction_ <$> im m') (loop <$> im m') (ls m').
Proof.
  revert m. induction s as [|a s IH]; intros m Hinv Hm; simpl.
  - now intros [= <-].
  - intros H. apply bind_Ok in H as (m1 & H1 & H2).
    pose proof (compile_char_step _ _ _ H1) as Hstep.
    apply (IH m1);
      [exact (char_step_inv _ _ _ Hinv Hstep)
      | exact (char_step_match _ _ _ Hinv Hstep Hm)
      | exact H2].
Qed.

(** C6.  For a source with properly nested, fully matched brackets, the
    compile loop ends with a program that reads back as the operator
    characters of the source, whose bracket instructions are the brackets
    of the source one for one and in order, and in which, for every [[[]
    instruction, [loop] is the index of the [[]] that closes it at its
    nesting depth, and for every [[]] instruction, [loop] is the index of
    the [[[] it closes; the two point at each other and the [[]] has the
    greater index. *)
Theorem loops_match (c : config) (s : list ascii) :
  bracket_scan s 0 = Some 0%nat ->
  exists l, compile c s = Ok l /\
    decode l = chr <$> strip s /\
    List.filter is_bracket (instruction_ <$> l) =
      List.filter is_bracket (chr <$> s) /\
    forall (i : nat) (x : instruction), l !! i = Some x ->
      (instruction_ x = BF_OP_LSTART ->
       exists (j : nat) (y : instruction),
         matching_close (instruction_ <$> l) i = Some j /\
         loop x = Some (Z.of_nat j) /\ (i < j)%nat /\
         l !! j = Some y /\ instruction_ y = BF_OP_LEND /\
         loop y = Some (Z.of_nat i)) /\
      (instruction_ x = BF_OP_LEND ->
       exists (j : nat) (y : instruction),
         matching_close (instruction_ <$> l) j = Some i /\
         loop x = Some (Z.of_nat j) /\ (j < i)%nat /\
         l !! j = Some y /\ instruction_ y = BF_OP_LSTART /\
         loop y = Some (Z.of_nat i)).
Proof.
  intros Hscan.
  destruct (compile_loop_scan s (start c []) 0 (compile_inv_start c []) Hscan)
    as (m & Hm & Hd).
  exists (im m). split; [unfold compile; now rewrite Hm |].
  split; [exact (compile_loop_decode s _ _ (compile_inv_start c []) Hm) |].
  split; [exact (compile_loop_brackets s _ _ _ Hm) |].
  pose proof (compile_loop_match s _ _ (compile_inv_start c [])
                match_inv_nil Hm) as [Hlen Hst Hop Hcl].
  apply length_zero_iff_nil in Hd. rewrite Hd in Hop.
  set (ops := instruction_ <$> im m) in *.
  set (lps := loop <$> im m) in *.
  assert (Hopen : forall i j, ops !! i = Some BF_OP_LSTART ->
            lps !! i = Some (Some (Z.of_nat j)) ->
            matching_close ops i = Some j /\ (i < j)%nat /\
            ops !! j = Some BF_OP_LEND /\
            lps !! j = Some (Some (Z.of_nat i))).
  { intros i j Hi Hj. specialize (Hop i Hi). unfold matching_close.
    destruct (find_close (drop (S i) ops) 0) as [k|p] eqn:Hf.
    - destruct Hop as [H1 H2]. rewrite H1 in Hj. injection Hj as Hj.
      apply Nat2Z.inj in Hj. subst j.
      split; [reflexivity |]. split; [lia |]. split; [| exact H2].
      apply find_close_inl in Hf. now rewrite lookup_drop in Hf.
    - destruct Hop as [Hp _]. now rewrite lookup_nil in Hp. }
  intros i x Hx.
  assert (Hxo : ops !! i = Some (instruction_ x))
    by (unfold ops; now rewrite list_lookup_fmap, Hx).
  assert (Hxl : lps !! i = Some (loop x))
    by (unfold lps; now rewrite list_lookup_fmap, Hx).
  split; intros Hi; rewrite Hi in Hxo.
  - pose proof (Hop i Hxo) as Hp.
    destruct (find_close (drop (S i) ops) 0) as [k|p] eqn:Hf;
      [| destruct Hp as [Hp _]; now rewrite lookup_nil in Hp].
    destruct Hp as [H1 _].
    destruct (Hopen i (S i + k)%nat Hxo H1) as (Hmc & Hlt & Ho & Hl).
    unfold ops in Ho. rewrite list_lookup_fmap in Ho.
    unfold lps in Hl. rewrite list_lookup_fmap in Hl.
    destruct (im m !! (S i + k)%nat) as [y|] eqn:Hy; [| discriminate].
    exists (S i + k)%nat, y. simpl in Ho, Hl.
    repeat split; try assumption; congruence.
  - destruct (Hcl i Hxo) as (j & H1 & Hlt & Ho & Hl).
    destruct (Hopen j i Ho Hl) as (Hmc & _ & _ & _).
    unfold ops in Ho. rewrite list_lookup_fmap in Ho.
    unfold lps in Hl. rewrite list_lookup_fmap in Hl.
    destruct (im m !! j) as [y|] eqn:Hy; [| discriminate].
    exists j, y. simpl in Ho, Hl.
    repeat split; try assumption; congruence.
Qed.

Lemma loops_match_witness :
  exists l, compile default_config (src "+[>[-]<-[,.]]") = Ok l /\
    decode l = chr <$> strip (src "+[>[-]<-[,.]]") /\
    List.filter is_bracket (instruction_ <$> l) =
      List.filter is_bracket (chr <$> src "+[>[-]<-[,.]]") /\
    forall (i : nat) (x : instruction), l !! i = Some x ->
      (instruction_ x = BF_OP_LSTART ->
       exists (j : nat) (y : instruction),
         matching_close (instruction_ <$> l) i = Some j /\
         loop x = Some (Z.of_nat j) /\ (i < j)%nat /\
         l !! j = Some y /\ instruction_ y = BF_OP_LEND /\
         loop y = Some (Z.of_nat i)) /\
      (instruction_ x = BF_OP_LEND ->
       exists (j : nat) (y : instruction),
         matching_close (instruction_ <$> l) j = Some i /\
         loop x = Some (Z.of_nat j) /\ (j < i)%nat /\
         l !! j = Some y /\ instruction_ y = BF_OP_LSTART /\
         loop y = Some (Z.of_nat i)).
Proof.
  exact (loops_match default_config (src "+[>[-]<-[,.]]") eq_refl).
Defined.

(** ** What the compile loop does with brackets left open *)

Lemma tape_bytes_small (n : Z) :
  0 <= n < 2 ^ 61 ->
  tape_bytes n = sizeof_long * n /\ tape_bytes n / sizeof_long = n.
Proof.
  intros Hn. unfold tape_bytes, size_t, SIZE_MAX, sizeof_long.
  change (18446744073709551615 + 1) with (8 * 2 ^ 61).
  rewrite (Z.mod_small n) by lia. rewrite Z.mod_small by lia.
  split; [lia | apply Z.div_mul; lia].
Qed.

(** C1, as the program has it.  The compile loop has no bracket check: a
    source in which every [[]] finds a pending [[[] is compiled to the end
    whether or not brackets remain open ([d] of them stay on the loop
    stack, each the index of a [[[] instruction whose [loop] field was
    never written), and in run mode, once the tape is allocated, the
    compiled instructions are then executed. *)
Theorem unmatched_open_compiles
    (c : config) (s : list ascii) (input : list byte) (fuel d : nat) :
  bracket_scan s 0 = Some d ->
  exists m, compile_loop s (start c input) = Ok m /\
    length (ls m) = d /\
    Forall (fun t => exists (n : nat) (x : instruction),
                       t = Z.of_nat n /\ im m !! n = Some x /\
                       instruction_ x = BF_OP_LSTART /\ loop x = None)
      (ls m) /\
    (mode c = BF_MODE_RUN -> tape_bytes (cn c) <= PTRDIFF_MAX ->
     main c s input fuel =
       run_loop fuel
         (set_ii 0
            (set_cm (replicate (Z.to_nat (tape_bytes (cn c) / sizeof_long)) 0)
               m))).
Proof.
  intros Hscan.
  destruct (compile_loop_scan s (start c input) d
              (compile_inv_start c input) Hscan) as (m & Hm & Hd).
  exists m. split; [exact Hm |]. split; [exact Hd |]. split.
  - pose proof (compile_loop_match s _ _ (compile_inv_start c input)
                  match_inv_nil Hm) as [_ Hst Hop _].
    apply Forall_forall. intros t Ht.
    apply list_elem_of_lookup in Ht as [p Hp].
    destruct (Hst p t Hp) as (n & -> & Hn & Hf).
    specialize (Hop n Hn). rewrite Hf in Hop. destruct Hop as [_ Hl].
    rewrite list_lookup_fmap in Hn. rewrite list_lookup_fmap in Hl.
    destruct (im m !! n) as [x|] eqn:Hx; [| discriminate].
    exists n, x. simpl in Hn, Hl. repeat split; congruence.
  - intros Hmode Hcn. unfold main. rewrite Hm. run_bind.
    rewrite Hmode. switch_consts.
    now rewrite (proj2 (Z.ltb_ge _ _) Hcn).
Qed.

Lemma unmatched_open_compiles_witness :
  exists m, compile_loop (src "+[") (start default_config []) = Ok m /\
    length (ls m) = 1%nat /\
    Forall (fun t => exists (n : nat) (x : instruction),
                       t = Z.of_nat n /\ im m !! n = Some x /\
                       instruction_ x = BF_OP_LSTART /\ loop x = None)
      (ls m) /\
    (mode default_config = BF_MODE_RUN ->
     tape_bytes (cn default_config) <= PTRDIFF_MAX ->
     main default_config (src "+[") [] 2 =
       run_loop 2
         (set_ii 0
            (set_cm (replicate
                       (Z.to_nat (tape_bytes (cn default_config) / sizeof_long))
                       0) m))).
Proof.
  exact (unmatched_open_compiles default_config (src "+[") [] 2 1 eq_refl).
Defined.

(** ** The end-to-end scenarios of the specification, on the model *)

Example hello_prints_Hello :
  stdout <$> main default_config (src hello) [] 1000 = Ok (bytes_of "Hello").
Proof. vm_compute. reflexivity. Qed.

Example read_at_eof_prints_zero :
  stdout <$> main default_config (src ",.") [] 2 = Ok [to_byte 0].
Proof. vm_compute. reflexivity. Qed.

Example clear_loop_ends_at_zero :
  main default_config (src "+[-]") [] 10 ≫= read_cell = Ok 0.
Proof. vm_compute. reflexivity. Qed.

Example left_of_cell_zero_dies :
  main default_config (src "<") [] 1 = Die "cell index underflow".
Proof. vm_compute. reflexivity. Qed.

Example left_of_cell_zero_saturates :
  ci <$> main saturating (src "<") [] 1 = Ok 0.
Proof. vm_compute. reflexivity. Qed.

Example lone_close_bracket_is_undefined :
  compile default_config (src "]") = Undefined.
Proof. reflexivity. Qed.

(** * Further properties of the code *)

(** ** [wrap] and the four arithmetic instructions *)

Lemma wrap_below_ok (v low high : Z) :
  low <= high -> v < low ->
  is_long v -> is_long low -> is_long (v - low) -> is_long (1 + high) ->
  is_long (1 + high - low) ->
  wrap v low high = Ok (low - (low - v) mod (high - low + 1)) /\
  v <= low - (low - v) mod (high - low + 1) <= low.
Proof.
  intros Hlh Hv Lv Llow L1 L2 L3.
  assert (Hm : 0 <= (low - v) mod (high - low + 1) < high - low + 1)
    by (apply Z.mod_pos_bound; lia).
  assert (Hle : (low - v) mod (high - low + 1) <= low - v)
    by (apply Z.mod_le; lia).
  split; [| lia].
  unfold wrap, lsub, ladd. rewrite (long_ok _ L1). run_bind.
  rewrite (long_ok _ L2). run_bind. rewrite (long_ok _ L3). run_bind.
  unfold lrem.
  rewrite (proj2 (Z.eqb_neq (1 + high - low) 0)) by lia.
  rewrite (proj2 (Z.eqb_neq (1 + high - low) (-1))) by lia.
  rewrite andb_false_r. run_bind.
  replace (v - low) with (- (low - v)) by lia.
  rewrite Z.rem_opp_l by lia. rewrite Z.rem_mod_nonneg by lia.
  replace (1 + high - low) with (high - low + 1) by lia.
  replace (- ((low - v) mod (high - low + 1)) + low)
    with (low - (low - v) mod (high - low + 1)) by lia.
  apply long_ok. unfold is_long in *. lia.
Qed.

(** X1.  [wrap(value, low, high)] with [low <= high] and no overflow in
    its arithmetic: a value at or above [low] is reduced modulo
    [high - low + 1] into [[low, high]]; a value below [low] is sent to
    [low] minus the remainder of its distance from [low], which lies
    between the value and [low] and so is in [[low, high]] only when it is
    [low] itself. *)
Theorem wrap_cases (v low high : Z) :
  low <= high ->
  is_long v -> is_long low -> is_long (v - low) -> is_long (1 + high) ->
  is_long (1 + high - low) ->
  (low <= v ->
   wrap v low high = Ok ((v - low) mod (high - low + 1) + low) /\
   low <= (v - low) mod (high - low + 1) + low <= high) /\
  (v < low ->
   wrap v low high = Ok (low - (low - v) mod (high - low + 1)) /\
   v <= low - (low - v) mod (high - low + 1) <= low).
Proof.
  intros Hlh Lv Llow L1 L2 L3. split; intros Hv.
  - now apply wrap_above.
  - now apply wrap_below_ok.
Qed.

Lemma wrap_cases_witness :
  (0 <= 260 ->
   wrap 260 0 255 = Ok ((260 - 0) mod (255 - 0 + 1) + 0) /\
   0 <= (260 - 0) mod (255 - 0 + 1) + 0 <= 255) /\
  (260 < 0 ->
   wrap 260 0 255 = Ok (0 - (0 - 260) mod (255 - 0 + 1)) /\
   260 <= 0 - (0 - 260) mod (255 - 0 + 1) <= 0).
Proof.
  apply (wrap_cases 260 0 255);
    first [lia | unfold is_long, LONG_MIN, LONG_MAX; lia].
Defined.

Lemma inc_value_wraps_witness :
  exists m', exec (mk_instruction BF_OP_VINC (Some 10) None)
               (machine ten_cells_wrapping [250] 0 []) = Ok m' /\
    read_cell m' = Ok 4 /\ 0 <= 4 <= 255.
Proof.
  apply (inc_value_wraps (machine ten_cells_wrapping [250] 0 [])
           (mk_instruction BF_OP_VINC (Some 10) None) 10 250);
    first [reflexivity | unfold is_long, LONG_MIN, LONG_MAX; simpl; lia
          | simpl; lia].
Defined.

(** X3.  Under the behaviour [w], a decrement whose candidate is below
    [va] stores [va] minus the remainder of the candidate's distance from
    [va]: a value between the candidate and [va], inside [[va, vb]] only
    when it is [va]. *)
Theorem dec_value_wraps_low (m : locals) (x : instruction) (n v : Z) :
  instruction_ x = BF_OP_VDEC -> quantity x = Some n ->
  vw (cfg m) = BF_END_WRAP -> read_cell m = Ok v ->
  va (cfg m) <= vb (cfg m) -> v - n < va (cfg m) ->
  is_long (v - n) -> is_long (va (cfg m)) -> is_long (v - n - va (cfg m)) ->
  is_long (1 + vb (cfg m)) -> is_long (1 + vb (cfg m) - va (cfg m)) ->
  exists m' w, exec x m = Ok m' /\ read_cell m' = Ok w /\
    w = va (cfg m) - (va (cfg m) - (v - n)) mod (vb (cfg m) - va (cfg m) + 1) /\
    v - n <= w <= va (cfg m) /\
    (va (cfg m) <= w <= vb (cfg m) -> w = va (cfg m)).
Proof.
  intros Hop Hq Hpol Hv Hrange Hunder L1 L2 L3 L4 L5.
  destruct (wrap_below_ok (v - n) (va (cfg m)) (vb (cfg m))) as [Hw Hin];
    try assumption.
  set (w := va (cfg m) -
            (va (cfg m) - (v - n)) mod (vb (cfg m) - va (cfg m) + 1)) in *.
  destruct (write_cell_read m v (v - n) Hv) as (m1 & Hw1 & Hr1 & Hm1).
  destruct (write_cell_read m1 (v - n) w Hr1) as (m2 & Hw2 & Hr2 & _).
  exists m2, w. split; [| split; [exact Hr2 | split; [reflexivity |]]].
  - unfold exec; cbv zeta. rewrite Hop, Hv, Hq. switch_consts.
    unfold written, lsub. run_bind. rewrite (long_ok _ L1). run_bind.
    rewrite (proj2 (Z.ltb_lt _ _) Hunder), Hpol. switch_consts.
    rewrite Hw1. run_bind. rewrite Hr1. run_bind.
    rewrite Hw. run_bind. exact Hw2.
  - split; [exact Hin | lia].
Qed.

Lemma dec_value_wraps_low_witness :
  exists m' w, exec (mk_instruction BF_OP_VDEC (Some 3) None)
                 (machine ten_cells_wrapping [1] 0 []) = Ok m' /\
    read_cell m' = Ok w /\
    w = 0 - (0 - (1 - 3)) mod (255 - 0 + 1) /\
    1 - 3 <= w <= 0 /\
    (0 <= w <= 255 -> w = 0).
Proof.
  apply (dec_value_wraps_low (machine ten_cells_wrapping [1] 0 [])
           (mk_instruction BF_OP_VDEC (Some 3) None) 3 1);
    first [reflexivity | unfold is_long, LONG_MIN, LONG_MAX; simpl; lia
          | simpl; lia].
Defined.

Lemma inc_pointer_wraps_modulo_succ_witness :
  exists m', exec (mk_instruction BF_OP_PINC (Some 1) None)
               (machine ten_cells_wrapping [0] 9 []) = Ok m' /\
    ci m' = (9 + 1) mod (10 + 1).
Proof.
  apply (inc_pointer_wraps_modulo_succ (machine ten_cells_wrapping [0] 9 [])
           (mk_instruction BF_OP_PINC (Some 1) None) 1);
    first [reflexivity | unfold is_long, LONG_MIN, LONG_MAX; simpl; lia
          | simpl; lia].
Defined.

(** X5.  Under the behaviour [w], a move below cell 0 leaves the cell
    index at minus the remainder of the candidate's distance from 0 modulo
    [cn + 1]: never a positive index, and a cell of the tape only when it
    is 0. *)
Theorem dec_pointer_wraps_nonpositive (m : locals) (x : instruction) (n : Z) :
  instruction_ x = BF_OP_PDEC -> quantity x = Some n ->
  cw (cfg m) = BF_END_WRAP ->
  0 < cn (cfg m) -> ci m - n < 0 ->
  is_long (ci m - n) -> is_long (1 + cn (cfg m)) ->
  exists m', exec x m = Ok m' /\
    ci m' = - ((n - ci m) mod (cn (cfg m) + 1)) /\
    ci m - n <= ci m' <= 0 /\ cm m' = cm m.
Proof.
  intros Hop Hq Hpol Hcn Hunder L1 L2.
  destruct (wrap_below_ok (ci m - n) 0 (cn (cfg m))) as [Hw Hin];
    rewrite ?Z.sub_0_r; try assumption; try lia.
  { unfold is_long, LONG_MIN, LONG_MAX. lia. }
  rewrite Z.sub_0_r in Hw, Hin.
  replace (0 - (ci m - n)) with (n - ci m) in Hw, Hin by lia.
  eexists. unfold exec; cbv zeta. rewrite Hop, Hq. switch_consts.
  unfold written, lsub. run_bind. rewrite (long_ok _ L1). run_bind.
  rewrite (proj2 (Z.ltb_lt _ _) Hunder), Hpol. switch_consts.
  rewrite Hw. run_bind.
  split; [reflexivity |]. simpl. split; [lia |]. split; [lia | reflexivity].
Qed.

Lemma dec_pointer_wraps_nonpositive_witness :
  exists m', exec (mk_instruction BF_OP_PDEC (Some 1) None)
               (machine ten_cells_wrapping [0] 0 []) = Ok m' /\
    ci m' = - ((1 - 0) mod (10 + 1)) /\
    0 - 1 <= ci m' <= 0 /\ cm m' = [0].
Proof.
  apply (dec_pointer_wraps_nonpositive (machine ten_cells_wrapping [0] 0 [])
           (mk_instruction BF_OP_PDEC (Some 1) None) 1);
    first [reflexivity | unfold is_long, LONG_MIN, LONG_MAX; simpl; lia
          | simpl; lia].
Defined.

(** X6.  Each of the four arithmetic instructions is checked on one side
    only and, when its candidate passes that check, stores the candidate
    whatever the behaviour characters are: an increment is compared with
    the maximum only ([vb], [cn - 1]) and a decrement with the minimum only
    ([va], 0). *)
Theorem unchecked_side_is_stored (m : locals) (x : instruction) (n v : Z) :
  quantity x = Some n ->
  (instruction_ x = BF_OP_VINC -> read_cell m = Ok v ->
   is_long (v + n) -> v + n <= vb (cfg m) ->
   exists m', exec x m = Ok m' /\ read_cell m' = Ok (v + n) /\
              ci m' = ci m) /\
  (instruction_ x = BF_OP_VDEC -> read_cell m = Ok v ->
   is_long (v - n) -> va (cfg m) <= v - n ->
   exists m', exec x m = Ok m' /\ read_cell m' = Ok (v - n) /\
              ci m' = ci m) /\
  (instruction_ x = BF_OP_PINC ->
   is_long (ci m + n) -> is_long (cn (cfg m) - 1) ->
   ci m + n <= cn (cfg m) - 1 ->
   exec x m = Ok (set_ci (ci m + n) m)) /\
  (instruction_ x = BF_OP_PDEC ->
   is_long (ci m - n) -> 0 <= ci m - n ->
   exec x m = Ok (set_ci (ci m - n) m)).
Proof.
  intros Hq. repeat split.
  - intros Hop Hv Hl Hin.
    destruct (write_cell_read m v (v + n) Hv) as (m' & Hw & Hr & Hm').
    exists m'. unfold exec; cbv zeta. rewrite Hop, Hq, Hv. switch_consts.
    unfold written, ladd. run_bind. rewrite (long_ok _ Hl). run_bind.
    rewrite Z.gtb_ltb, (proj2 (Z.ltb_ge _ _) Hin).
    split; [exact Hw | split; [exact Hr | now subst m']].
  - intros Hop Hv Hl Hin.
    destruct (write_cell_read m v (v - n) Hv) as (m' & Hw & Hr & Hm').
    exists m'. unfold exec; cbv zeta. rewrite Hop, Hq, Hv. switch_consts.
    unfold written, lsub. run_bind. rewrite (long_ok _ Hl). run_bind.
    rewrite (proj2 (Z.ltb_ge _ _) Hin).
    split; [exact Hw | split; [exact Hr | now subst m']].
  - intros Hop Hl He Hin.
    unfold exec; cbv zeta. rewrite Hop, Hq. switch_consts.
    unfold written, ladd, lsub. run_bind. rewrite (long_ok _ Hl). run_bind.
    rewrite (long_ok _ He). run_bind.
    now rewrite Z.gtb_ltb, (proj2 (Z.ltb_ge _ _) Hin).
  - intros Hop Hl Hin.
    unfold exec; cbv zeta. rewrite Hop, Hq. switch_consts.
    unfold written, lsub. run_bind. rewrite (long_ok _ Hl). run_bind.
    now rewrite (proj2 (Z.ltb_ge _ _) Hin).
Qed.

Lemma unchecked_side_is_stored_witness :
  (exists m', exec (mk_instruction BF_OP_VINC (Some 1) None)
                (machine unknown_behaviours [0; 0; 0] 0 []) = Ok m' /\
              read_cell m' = Ok 1 /\ ci m' = 0) /\
  (exists m', exec (mk_instruction BF_OP_VDEC (Some 1) None)
                (machine unknown_behaviours [300; 0; 0] 0 []) = Ok m' /\
              read_cell m' = Ok 299 /\ ci m' = 0) /\
  exec (mk_instruction BF_OP_PINC (Some 2) None)
    (machine unknown_behaviours [0; 0; 0] (-5) []) =
    Ok (set_ci (-3) (machine unknown_behaviours [0; 0; 0] (-5) [])) /\
  exec (mk_instruction BF_OP_PDEC (Some 2) None)
    (machine unknown_behaviours [0; 0; 0] 7 []) =
    Ok (set_ci 5 (machine unknown_behaviours [0; 0; 0] 7 [])).
Proof.
  split; [| split; [| split]].
  - apply (proj1 (unchecked_side_is_stored
                    (machine unknown_behaviours [0; 0; 0] 0 [])
                    (mk_instruction BF_OP_VINC (Some 1) None) 1 0 eq_refl));
      first [reflexivity | unfold is_long, LONG_MIN, LONG_MAX; simpl; lia
            | simpl; lia].
  - apply (proj1 (proj2 (unchecked_side_is_stored
                    (machine unknown_behaviours [300; 0; 0] 0 [])
                    (mk_instruction BF_OP_VDEC (Some 1) None) 1 300 eq_refl)));
      first [reflexivity | unfold is_long, LONG_MIN, LONG_MAX; simpl; lia
            | simpl; lia].
  - apply (proj1 (proj2 (proj2 (unchecked_side_is_stored
                    (machine unknown_behaviours [0; 0; 0] (-5) [])
                    (mk_instruction BF_OP_PINC (Some 2) None) 2 0 eq_refl))));
      first [reflexivity | unfold is_long, LONG_MIN, LONG_MAX; simpl; lia
            | simpl; lia].
  - apply (proj2 (proj2 (proj2 (unchecked_side_is_stored
                    (machine unknown_behaviours [0; 0; 0] 7 [])
                    (mk_instruction BF_OP_PDEC (Some 2) None) 2 0 eq_refl))));
      first [reflexivity | unfold is_long, LONG_MIN, LONG_MAX; simpl; lia
            | simpl; lia].
Defined.

(** X7.  On an over/underflow the behaviour [e] ends the program with a
    message naming the operation, and a behaviour character other than
    [e], [i] and [w] ends it with "invalid value-end behaviour" or "invalid
    cell-end behaviour"; a wrong character is thus reported at the first
    over/underflow, not before. *)
Theorem overflow_dies (m : locals) (x : instruction) (n v : Z) :
  quantity x = Some n ->
  (instruction_ x = BF_OP_VINC -> read_cell m = Ok v ->
   is_long (v + n) -> vb (cfg m) < v + n ->
   (vw (cfg m) = BF_END_ERROR -> exec x m = Die "value overflow") /\
   (vw (cfg m) <> BF_END_ERROR -> vw (cfg m) <> BF_END_IGNORE ->
    vw (cfg m) <> BF_END_WRAP ->
    exec x m = Die "invalid value-end behaviour")) /\
  (instruction_ x = BF_OP_VDEC -> read_cell m = Ok v ->
   is_long (v - n) -> v - n < va (cfg m) ->
   (vw (cfg m) = BF_END_ERROR -> exec x m = Die "value underflow") /\
   (vw (cfg m) <> BF_END_ERROR -> vw (cfg m) <> BF_END_IGNORE ->
    vw (cfg m) <> BF_END_WRAP ->
    exec x m = Die "invalid value-end behaviour")) /\
  (instruction_ x = BF_OP_PINC ->
   is_long (ci m + n) -> is_long (cn (cfg m) - 1) ->
   cn (cfg m) - 1 < ci m + n ->
   (cw (cfg m) = BF_END_ERROR -> exec x m = Die "cell index overflow") /\
   (cw (cfg m) <> BF_END_ERROR -> cw (cfg m) <> BF_END_IGNORE ->
    cw (cfg m) <> BF_END_WRAP ->
    exec x m = Die "invalid cell-end behaviour")) /\
  (instruction_ x = BF_OP_PDEC ->
   is_long (ci m - n) -> ci m - n < 0 ->
   (cw (cfg m) = BF_END_ERROR -> exec x m = Die "cell index underflow") /\
   (cw (cfg m) <> BF_END_ERROR -> cw (cfg m) <> BF_END_IGNORE ->
    cw (cfg m) <> BF_END_WRAP ->
    exec x m = Die "invalid cell-end behaviour")).
Proof.
  intros Hq. split; [| split; [| split]].
  1: intros Hop Hv Hl Hover; split; [intros Hpol | intros H1 H2 H3];
    unfold exec; cbv zeta; rewrite Hop, Hq, Hv; switch_consts;
    unfold written, ladd; run_bind; rewrite (long_ok _ Hl); run_bind;
    rewrite (gtb_true _ _ Hover).
  3: intros Hop Hv Hl Hunder; split; [intros Hpol | intros H1 H2 H3];
    unfold exec; cbv zeta; rewrite Hop, Hq, Hv; switch_consts;
    unfold written, lsub; run_bind; rewrite (long_ok _ Hl); run_bind;
    rewrite (proj2 (Z.ltb_lt _ _) Hunder).
  5: intros Hop Hl He Hover; split; [intros Hpol | intros H1 H2 H3];
    unfold exec; cbv zeta; rewrite Hop, Hq; switch_consts;
    unfold written, ladd, lsub; run_bind; rewrite (long_ok _ Hl); run_bind;
    rewrite (long_ok _ He); run_bind; rewrite (gtb_true _ _ Hover).
  7: intros Hop Hl Hunder; split; [intros Hpol | intros H1 H2 H3];
    unfold exec; cbv zeta; rewrite Hop, Hq; switch_consts;
    unfold written, lsub; run_bind; rewrite (long_ok _ Hl); run_bind;
    rewrite (proj2 (Z.ltb_lt _ _) Hunder).
  all: first
    [ rewrite Hpol; reflexivity
    | rewrite (proj2 (Z.eqb_neq _ _) H1), (proj2 (Z.eqb_neq _ _) H2),
        (proj2 (Z.eqb_neq _ _) H3); reflexivity ].
Qed.

Ltac by_values :=
  first [ reflexivity
        | unfold is_long, LONG_MIN, LONG_MAX; simpl; lia
        | simpl; lia
        | let H := fresh in intros H; vm_compute in H; discriminate H ].

Lemma overflow_dies_witness :
  (exec (mk_instruction BF_OP_VINC (Some 10) None)
     (machine erroring [250; 0; 0] 0 []) = Die "value overflow" /\
   exec (mk_instruction BF_OP_VINC (Some 10) None)
     (machine unknown_behaviours [250; 0; 0] 0 []) =
     Die "invalid value-end behaviour") /\
  (exec (mk_instruction BF_OP_VDEC (Some 1) None)
     (machine erroring [0; 0; 0] 0 []) = Die "value underflow" /\
   exec (mk_instruction BF_OP_VDEC (Some 1) None)
     (machine unknown_behaviours [5; 0; 0] 0 []) =
     Die "invalid value-end behaviour") /\
  (exec (mk_instruction BF_OP_PINC (Some 1) None)
     (machine erroring [0; 0; 0] 2 []) = Die "cell index overflow" /\
   exec (mk_instruction BF_OP_PINC (Some 1) None)
     (machine unknown_behaviours [0; 0; 0] 2 []) =
     Die "invalid cell-end behaviour") /\
  (exec (mk_instruction BF_OP_PDEC (Some 1) None)
     (machine erroring [0; 0; 0] 0 []) = Die "cell index underflow" /\
   exec (mk_instruction BF_OP_PDEC (Some 1) None)
     (machine unknown_behaviours [0; 0; 0] 0 []) =
     Die "invalid cell-end behaviour").
Proof.
  split; [split | split; [split | split; [split | split]]].
  - apply (proj1 (overflow_dies (machine erroring [250; 0; 0] 0 [])
             (mk_instruction BF_OP_VINC (Some 10) None) 10 250 eq_refl));
      by_values.
  - apply (proj1 (overflow_dies (machine unknown_behaviours [250; 0; 0] 0 [])
             (mk_instruction BF_OP_VINC (Some 10) None) 10 250 eq_refl));
      by_values.
  - apply (proj1 (proj2 (overflow_dies (machine erroring [0; 0; 0] 0 [])
             (mk_instruction BF_OP_VDEC (Some 1) None) 1 0 eq_refl)));
      by_values.
  - apply (proj1 (proj2 (overflow_dies
             (machine unknown_behaviours [5; 0; 0] 0 [])
             (mk_instruction BF_OP_VDEC (Some 1) None) 1 5 eq_refl)));
      by_values.
  - apply (proj1 (proj2 (proj2 (overflow_dies
             (machine erroring [0; 0; 0] 2 [])
             (mk_instruction BF_OP_PINC (Some 1) None) 1 0 eq_refl))));
      by_values.
  - apply (proj1 (proj2 (proj2 (overflow_dies
             (machine unknown_behaviours [0; 0; 0] 2 [])
             (mk_instruction BF_OP_PINC (Some 1) None) 1 0 eq_refl))));
      by_values.
  - apply (proj2 (proj2 (proj2 (overflow_dies
             (machine erroring [0; 0; 0] 0 [])
             (mk_instruction BF_OP_PDEC (Some 1) None) 1 0 eq_refl))));
      by_values.
  - apply (proj2 (proj2 (proj2 (overflow_dies
             (machine unknown_behaviours [0; 0; 0] 0 [])
             (mk_instruction BF_OP_PDEC (Some 1) None) 1 0 eq_refl))));
      by_values.
Defined.

(** ** Reading and writing *)

Lemma turns_app (a b : nat) (body : locals -> result locals) (m : locals) :
  turns (a + b) body m = turns a body m ≫= turns b body.
Proof.
  revert m. induction a as [|a IH]; intros m; simpl; [reflexivity |].
  destruct (body m); simpl; auto.
Qed.

Lemma read_turn_byte (m : locals) (b : byte) (rest : list byte) (v : Z) :
  stdin m = b :: rest -> read_cell m = Ok v ->
  read_turn m =
    Ok (set_cm (alter (fun _ => byte_value b) (Z.to_nat (ci m)) (cm m))
          (set_stdin rest m)).
Proof.
  intros Hin Hv. unfold read_turn; cbv zeta. rewrite Hin.
  destruct (write_cell_read (set_stdin rest m) v (byte_value b) Hv)
    as (m' & Hw & _ & ->).
  exact Hw.
Qed.

(** Reading as many bytes as are asked for, when they are there. *)
Lemma turns_read (bs rest : list byte) (m : locals) (v : Z) :
  stdin m = bs ++ rest -> read_cell m = Ok v ->
  exists m', turns (length bs) read_turn m = Ok m' /\
    stdin m' = rest /\
    read_cell m' = Ok (default v (byte_value <$> last bs)) /\
    ci m' = ci m /\ cfg m' = cfg m /\ stdout m' = stdout m /\
    length (cm m') = length (cm m).
Proof.
  revert m v. induction bs as [|b bs IH]; intros m v Hin Hv; simpl.
  - exists m. repeat split; auto.
  - rewrite (read_turn_byte m b (bs ++ rest) v Hin Hv). run_bind.
    set (m1 := set_cm _ _).
    assert (Hv1 : read_cell m1 = Ok (byte_value b)).
    { destruct (write_cell_read (set_stdin (bs ++ rest) m) v (byte_value b) Hv)
        as (m' & _ & Hr & ->). exact Hr. }
    destruct (IH m1 (byte_value b) eq_refl Hv1)
      as (m' & Ht & H1 & H2 & H3 & H4 & H5 & H6).
    exists m'. split; [exact Ht |]. split; [exact H1 |].
    split; [| repeat split; try assumption;
              rewrite H6; unfold m1; simpl; apply length_alter].
    rewrite H2, last_cons. now destruct (last bs).
Qed.

(** X8.  A read instruction with quantity [n], when at least [n] bytes of
    input are left, takes exactly the first [n] of them and leaves the last
    one taken in the current cell; nothing is written and the cell index
    stays. *)
Theorem read_takes_quantity_bytes
    (m : locals) (x : instruction) (bs rest : list byte) (b : byte) (v : Z) :
  instruction_ x = BF_OP_IN ->
  quantity x = Some (Z.of_nat (length bs)) ->
  stdin m = bs ++ rest -> last bs = Some b ->
  read_cell m = Ok v ->
  exists m', exec x m = Ok m' /\
    read_cell m' = Ok (byte_value b) /\ stdin m' = rest /\
    stdout m' = stdout m /\ ci m' = ci m.
Proof.
  intros Hop Hq Hin Hlast Hv.
  destruct (turns_read bs rest m v Hin Hv)
    as (m' & Ht & H1 & H2 & H3 & _ & H5 & _).
  exists m'. rewrite Hlast in H2. simpl in H2.
  split; [| repeat split; assumption].
  unfold exec; cbv zeta. rewrite Hop, Hq. switch_consts.
  unfold written. run_bind. unfold repeat_quantity.
  rewrite (proj2 (Z.ltb_ge _ _) (Nat2Z.is_nonneg _)), Nat2Z.id. exact Ht.
Qed.

Lemma read_takes_quantity_bytes_witness :
  exists m', exec (mk_instruction BF_OP_IN (Some 2) None)
               (machine narrow [7; 0] 0 ["A"; "B"; "C"]%byte) = Ok m' /\
    read_cell m' = Ok 66 /\ stdin m' = ["C"%byte] /\
    stdout m' = [] /\ ci m' = 0.
Proof.
  exact (read_takes_quantity_bytes (machine narrow [7; 0] 0 ["A"; "B"; "C"]%byte)
           (mk_instruction BF_OP_IN (Some 2) None) ["A"; "B"]%byte ["C"%byte]
           "B"%byte 7 eq_refl eq_refl eq_refl eq_refl eq_refl).
Defined.

Lemma read_turn_at_eof (m : locals) (k : Z) :
  stdin m = [] ->
  (ce (cfg m) = BF_EOF_ZERO /\ k = 0 \/
   ce (cfg m) = BF_EOF_MIN /\ k = va (cfg m) \/
   ce (cfg m) = BF_EOF_MAX /\ k = vb (cfg m) \/
   ce (cfg m) = BF_EOF_NEGONE /\ k = -1 \/
   ce (cfg m) = BF_EOF_NOCHG /\ k = EOF) ->
  read_turn m = write_cell k m.
Proof.
  intros Hin Hk. unfold read_turn; cbv zeta. rewrite Hin.
  destruct Hk as [[-> ->]|[[-> ->]|[[-> ->]|[[-> ->]|[-> ->]]]]];
    switch_consts; run_bind; reflexivity.
Qed.

Lemma turns_at_eof (j : nat) (m : locals) (k v : Z) :
  stdin m = [] -> read_cell m = Ok v ->
  (ce (cfg m) = BF_EOF_ZERO /\ k = 0 \/
   ce (cfg m) = BF_EOF_MIN /\ k = va (cfg m) \/
   ce (cfg m) = BF_EOF_MAX /\ k = vb (cfg m) \/
   ce (cfg m) = BF_EOF_NEGONE /\ k = -1 \/
   ce (cfg m) = BF_EOF_NOCHG /\ k = EOF) ->
  exists m', turns (S j) read_turn m = Ok m' /\
    read_cell m' = Ok k /\ stdin m' = [] /\
    stdout m' = stdout m /\ ci m' = ci m.
Proof.
  revert m v. induction j as [|j IH]; intros m v Hin Hv Hk.
  - simpl. rewrite (read_turn_at_eof m k Hin Hk).
    destruct (write_cell_read m v k Hv) as (m' & Hw & Hr & ->).
    rewrite Hw. run_bind. eexists. split; [reflexivity |].
    repeat split; auto.
  - change (turns (S (S j)) read_turn m)
      with (m' ← read_turn m; turns (S j) read_turn m').
    rewrite (read_turn_at_eof m k Hin Hk).
    destruct (write_cell_read m v k Hv) as (m1 & Hw & Hr & Hm1).
    rewrite Hw. run_bind.
    destruct (IH m1 k) as (m' & Ht & H1 & H2 & H3 & H4);
      [now subst m1 | exact Hr | now subst m1 |].
    exists m'. split; [exact Ht |]. subst m1. repeat split; assumption.
Qed.

(** X9.  A read instruction that asks for more bytes than are left takes
    them all and then stores the end-of-file value chosen by [-e]: 0 for
    [0], [va] for [a], [vb] for [b], -1 for [n], and for [x] the value
    [EOF] that [getchar] returned, so that the last byte read is not kept
    either. *)
Theorem read_past_end_stores_eof_value
    (m : locals) (x : instruction) (n k v : Z) :
  instruction_ x = BF_OP_IN -> quantity x = Some n ->
  Z.of_nat (length (stdin m)) < n ->
  read_cell m = Ok v ->
  (ce (cfg m) = BF_EOF_ZERO /\ k = 0 \/
   ce (cfg m) = BF_EOF_MIN /\ k = va (cfg m) \/
   ce (cfg m) = BF_EOF_MAX /\ k = vb (cfg m) \/
   ce (cfg m) = BF_EOF_NEGONE /\ k = -1 \/
   ce (cfg m) = BF_EOF_NOCHG /\ k = EOF) ->
  exists m', exec x m = Ok m' /\
    read_cell m' = Ok k /\ stdin m' = [] /\
    stdout m' = stdout m /\ ci m' = ci m.
Proof.
  intros Hop Hq Hn Hv Hk.
  destruct (turns_read (stdin m) [] m v (eq_sym (app_nil_r _)) Hv)
    as (m1 & Ht1 & H1 & H2 & H3 & H4 & H5 & _).
  set (j := (Z.to_nat n - S (length (stdin m)))%nat).
  destruct (turns_at_eof j m1 k _ H1 H2) as (m' & Ht & G1 & G2 & G3 & G4);
    [now rewrite H4 |].
  exists m'. split; [| repeat split; congruence].
  unfold exec; cbv zeta. rewrite Hop, Hq. switch_consts.
  unfold written. run_bind. unfold repeat_quantity.
  rewrite (proj2 (Z.ltb_ge n 0)) by lia.
  replace (Z.to_nat n) with (length (stdin m) + S j)%nat by lia.
  rewrite turns_app, Ht1. run_bind. exact Ht.
Qed.

Lemma read_past_end_stores_eof_value_witness :
  exists m', exec (mk_instruction BF_OP_IN (Some 2) None)
               (machine keep_on_eof [7] 0 ["A"%byte]) = Ok m' /\
    read_cell m' = Ok (-1) /\ stdin m' = [] /\
    stdout m' = [] /\ ci m' = 0.
Proof.
  apply (read_past_end_stores_eof_value (machine keep_on_eof [7] 0 ["A"%byte])
           (mk_instruction BF_OP_IN (Some 2) None) 2 (-1) 7);
    first [reflexivity | simpl; lia | (do 4 right; split; reflexivity)].
Defined.

(** X10.  An [-e] character other than [0], [a], [b], [n] and [x] ends the
    program with "invalid EOF behaviour", and only when a read finds the
    input exhausted: the bytes that are left are read first. *)
Theorem unknown_eof_behaviour_dies
    (m : locals) (x : instruction) (n v : Z) :
  instruction_ x = BF_OP_IN -> quantity x = Some n ->
  Z.of_nat (length (stdin m)) < n ->
  read_cell m = Ok v ->
  ce (cfg m) <> BF_EOF_ZERO -> ce (cfg m) <> BF_EOF_NEGONE ->
  ce (cfg m) <> BF_EOF_MIN -> ce (cfg m) <> BF_EOF_MAX ->
  ce (cfg m) <> BF_EOF_NOCHG ->
  exec x m = Die "invalid EOF behaviour" /\
  exists m', turns (length (stdin m)) read_turn m = Ok m' /\ stdin m' = [].
Proof.
  intros Hop Hq Hn Hv E1 E2 E3 E4 E5.
  destruct (turns_read (stdin m) [] m v (eq_sym (app_nil_r _)) Hv)
    as (m1 & Ht1 & H1 & H2 & H3 & H4 & H5 & _).
  split; [| eauto].
  unfold exec; cbv zeta. rewrite Hop, Hq. switch_consts.
  unfold written. run_bind. unfold repeat_quantity.
  rewrite (proj2 (Z.ltb_ge n 0)) by lia.
  replace (Z.to_nat n)
    with (length (stdin m) + S (Z.to_nat n - S (length (stdin m))))%nat by lia.
  rewrite turns_app, Ht1. run_bind. cbn [turns].
  assert (Hd : read_turn m1 = Die "invalid EOF behaviour").
  { unfold read_turn; cbv zeta. rewrite H1, H4.
    rewrite (proj2 (Z.eqb_neq _ _) E1), (proj2 (Z.eqb_neq _ _) E2),
      (proj2 (Z.eqb_neq _ _) E3), (proj2 (Z.eqb_neq _ _) E4),
      (proj2 (Z.eqb_neq _ _) E5).
    reflexivity. }
  now rewrite Hd.
Qed.

Lemma unknown_eof_behaviour_dies_witness :
  exec (mk_instruction BF_OP_IN (Some 2) None)
    (machine unknown_behaviours [7; 0; 0] 0 ["A"%byte]) =
    Die "invalid EOF behaviour" /\
  exists m', turns 1 read_turn
               (machine unknown_behaviours [7; 0; 0] 0 ["A"%byte]) = Ok m' /\
             stdin m' = [].
Proof.
  apply (unknown_eof_behaviour_dies
           (machine unknown_behaviours [7; 0; 0] 0 ["A"%byte])
           (mk_instruction BF_OP_IN (Some 2) None) 2 7); by_values.
Defined.

Lemma to_byte_value (z : Z) : byte_value (to_byte z) = z mod 256.
Proof.
  unfold byte_value, to_byte.
  assert (Hm : 0 <= z mod 256 < 256) by (apply Z.mod_pos_bound; lia).
  destruct (Byte.of_N (Z.to_N (z mod 256))) as [b|] eqn:E.
  - apply Byte.to_of_N in E. rewrite E. lia.
  - apply Byte.of_N_None_iff in E. lia.
Qed.

Lemma turns_write (n : nat) (m : locals) (v : Z) :
  read_cell m = Ok v ->
  turns n write_turn m =
    Ok (set_stdout (stdout m ++ replicate n (to_byte v)) m).
Proof.
  revert m. induction n as [|n IH]; intros m Hv; cbn [turns replicate].
  - rewrite app_nil_r. now destruct m.
  - assert (Hw : write_turn m = Ok (set_stdout (stdout m ++ [to_byte v]) m))
      by (unfold write_turn; now rewrite Hv).
    rewrite Hw. run_bind.
    rewrite (IH (set_stdout (stdout m ++ [to_byte v]) m)) by exact Hv.
    unfold set_stdout; simpl. now rewrite <- app_assoc.
Qed.

(** X11.  A write instruction with quantity [n] appends [n] copies of one
    byte to the output and changes nothing else; the byte is the current
    cell modulo 256, so a cell holding -1 is written as 255. *)
Theorem write_emits_cell_mod_256 (m : locals) (x : instruction) (n v : Z) :
  instruction_ x = BF_OP_OUT -> quantity x = Some n -> 0 <= n ->
  read_cell m = Ok v ->
  exec x m =
    Ok (set_stdout (stdout m ++ replicate (Z.to_nat n) (to_byte v)) m) /\
  byte_value (to_byte v) = v mod 256.
Proof.
  intros Hop Hq Hn Hv. split; [| apply to_byte_value].
  unfold exec; cbv zeta. rewrite Hop, Hq. switch_consts.
  unfold written. run_bind. unfold repeat_quantity.
  rewrite (proj2 (Z.ltb_ge n 0)) by lia.
  now apply turns_write.
Qed.

Lemma write_emits_cell_mod_256_witness :
  exec (mk_instruction BF_OP_OUT (Some 3) None)
    (machine default_config [-1] 0 []) =
    Ok (set_stdout ([] ++ replicate (Z.to_nat 3) (to_byte (-1)))
          (machine default_config [-1] 0 [])) /\
  byte_value (to_byte (-1)) = (-1) mod 256.
Proof.
  apply (write_emits_cell_mod_256 (machine default_config [-1] 0 [])
           (mk_instruction BF_OP_OUT (Some 3) None) 3 (-1)); by_values.
Defined.

(** ** The run loop as a whole *)

Lemma keeps_refl (m : locals) : keeps m m.
Proof.
  repeat split; try reflexivity.
  - exists []. now rewrite app_nil_r.
  - now exists [].
Qed.

Lemma keeps_trans (m1 m2 m3 : locals) :
  keeps m1 m2 -> keeps m2 m3 -> keeps m1 m3.
Proof.
  intros (A1 & A2 & A3 & A4 & [o1 A5] & [u1 A6])
         (B1 & B2 & B3 & B4 & [o2 B5] & [u2 B6]).
  repeat split; try congruence.
  - exists (o1 ++ o2). now rewrite B5, A5, app_assoc.
  - exists (u1 ++ u2). now rewrite A6, B6, app_assoc.
Qed.

Lemma write_cell_inv (v : Z) (m m' : locals) :
  write_cell v m = Ok m' ->
  m' = set_cm (alter (fun _ => v) (Z.to_nat (ci m)) (cm m)) m.
Proof.
  unfold write_cell. intros H. apply bind_Ok in H as (l & Hl & [= <-]).
  apply zalter_inv in Hl as [_ ->]. reflexivity.
Qed.

Lemma write_cell_keeps (v : Z) (m m' : locals) :
  write_cell v m = Ok m' -> keeps m m' /\ ii m' = ii m.
Proof.
  intros H. apply write_cell_inv in H as ->. split; [| reflexivity].
  repeat split; simpl; try reflexivity.
  - apply length_alter.
  - exists []. now rewrite app_nil_r.
  - now exists [].
Qed.

Lemma read_turn_keeps (m m' : locals) :
  read_turn m = Ok m' -> keeps m m' /\ ii m' = ii m.
Proof.
  unfold read_turn; cbv zeta. destruct (stdin m) as [|b rest] eqn:Hin.
  - intros H. apply bind_Ok in H as (k & _ & H).
    apply write_cell_keeps in H. exact H.
  - intros H. apply write_cell_keeps in H as [(A1 & A2 & A3 & A4 & A5 & A6) A7].
    simpl in *. split; [| exact A7].
    repeat split; try assumption.
    destruct A6 as [u A6]. exists (b :: u). rewrite Hin. simpl.
    now rewrite <- A6.
Qed.

Lemma write_turn_keeps (m m' : locals) :
  write_turn m = Ok m' -> keeps m m' /\ ii m' = ii m.
Proof.
  unfold write_turn. intros H. apply bind_Ok in H as (v & _ & [= <-]).
  split; [| reflexivity]. repeat split; simpl; try reflexivity.
  - eauto.
  - now exists [].
Qed.

Lemma turns_keeps (n : nat) (body : locals -> result locals) (m m' : locals) :
  (forall a b, body a = Ok b -> keeps a b /\ ii b = ii a) ->
  turns n body m = Ok m' -> keeps m m' /\ ii m' = ii m.
Proof.
  intros Hbody. revert m. induction n as [|n IH]; intros m; simpl.
  - intros [= <-]. split; [apply keeps_refl | reflexivity].
  - intros H. apply bind_Ok in H as (m1 & H1 & H2).
    destruct (Hbody _ _ H1) as [K1 I1]. destruct (IH _ H2) as [K2 I2].
    split; [exact (keeps_trans _ _ _ K1 K2) | congruence].
Qed.

Lemma set_ci_keeps (z : Z) (m : locals) : keeps m (set_ci z m).
Proof. exact (keeps_refl m). Qed.

Lemma set_ii_keeps (z : Z) (m : locals) : keeps m (set_ii z m).
Proof. exact (keeps_refl m). Qed.

(** One instruction keeps what the run loop keeps, and moves the cursor
    only when it is a bracket, to the bracket's [loop] field. *)
Lemma exec_keeps (x : instruction) (m m' : locals) :
  exec x m = Ok m' ->
  keeps m m' /\
  (ii m' = ii m \/
   (instruction_ x = BF_OP_LSTART \/ instruction_ x = BF_OP_LEND) /\
   loop x = Some (ii m')).
Proof.
  unfold exec; cbv zeta. intros H.
  repeat match type of H with
  | (if ?b then _ else _) = Ok _ => destruct b eqn:?
  | (_ ≫= _) = Ok _ =>
      let a := fresh "a" in let Ha := fresh "Ha" in
      apply bind_Ok in H as (a & Ha & H)
  | Die _ = Ok _ => discriminate H
  end;
  repeat match goal with
  | Hw : write_cell _ _ = Ok _ |- _ => apply write_cell_keeps in Hw as [? ?]
  | Hq : repeat_quantity _ _ _ = Ok _ |- _ =>
      unfold repeat_quantity in Hq;
      match type of Hq with (if ?b then _ else _) = _ =>
        destruct b; [discriminate Hq |] end;
      first [ apply (turns_keeps _ _ _ _ read_turn_keeps) in Hq as [? ?]
            | apply (turns_keeps _ _ _ _ write_turn_keeps) in Hq as [? ?] ]
  | Hok : Ok _ = Ok _ |- _ => injection Hok as <-
  end;
  (split;
   [ first [ match goal with |- keeps ?a _ => exact (keeps_refl a) end
           | assumption
           | eapply keeps_trans; eassumption ]
   | first [ left; simpl; congruence | right; simpl ] ]).
  all: match goal with
       | Hl : written (loop ?y) = Ok _ |- _ =>
           unfold written in Hl; destruct (loop y); [| discriminate Hl];
           injection Hl as ->
       end.
  all: split; [| reflexivity].
  all: match goal with
       | He : (instruction_ ?y =? ?c) = true |- _ =>
           apply Z.eqb_eq in He; rewrite He; auto
       end.
Qed.

Lemma run_loop_keeps (fuel : nat) (m m' : locals) :
  run_loop fuel m = Ok m' ->
  keeps m m' /\ Z.of_nat (length (im m)) <= ii m'.
Proof.
  revert m. induction fuel as [|fuel IH]; intros m; simpl;
    destruct (Z.ltb_spec (ii m) (Z.of_nat (length (im m)))) as [Hlt|Hge];
    try discriminate; try (intros [= <-]; split; [apply keeps_refl | lia]).
  intros H. apply bind_Ok in H as (x & _ & H).
  apply bind_Ok in H as (m1 & H1 & H).
  apply exec_keeps in H1 as [K1 _].
  apply IH in H as [K2 Hii]. simpl in Hii.
  pose proof K1 as (_ & Him & _). rewrite Him in Hii. split; [| exact Hii].
  eapply keeps_trans; [exact K1 |].
  eapply keeps_trans; [apply (set_ii_keeps (ii m1 + 1)) | exact K2].
Qed.

Lemma compile_char_with_stdin (input : list byte) (i : Z) (m : locals) :
  compile_char i (with_stdin input m) = with_stdin input <$> compile_char i m.
Proof.
  unfold compile_char; simpl.
  destruct (foldable i).
  - destruct (last (im m)) as [x|]; [| reflexivity].
    destruct (i =? instruction_ x); [| reflexivity].
    destruct (quantity x); reflexivity.
  - destruct (i =? BF_OP_LSTART); [reflexivity |].
    destruct (i =? BF_OP_LEND); [| reflexivity].
    destruct (ls m) as [|t rest]; [reflexivity |].
    destruct (zalter _ t _); reflexivity.
Qed.

Lemma compile_loop_with_stdin (input : list byte) (s : list ascii) (m : locals) :
  compile_loop s (with_stdin input m) = with_stdin input <$> compile_loop s m.
Proof.
  revert m. induction s as [|a s IH]; intros m; simpl; [reflexivity |].
  rewrite compile_char_with_stdin.
  destruct (compile_char (chr a) m) as [m'| | |]; simpl; auto.
Qed.

(** The instruction memory [main] runs is the one [compile] gives. *)
Lemma compile_loop_compile (c : config) (s : list ascii) (input : list byte)
    (m : locals) :
  compile_loop s (start c input) = Ok m ->
  compile c s = Ok (im m) /\ cfg m = c /\ stdin m = input /\ stdout m = [].
Proof.
  change (start c input) with (with_stdin input (start c [])).
  rewrite compile_loop_with_stdin. unfold compile.
  destruct (compile_loop s (start c [])) as [m0| | |] eqn:E;
    simpl; intros H; try discriminate. injection H as <-. simpl.
  split; [reflexivity |].
  assert (K : forall s0 m1 m2, compile_loop s0 m1 = Ok m2 ->
            cfg m2 = cfg m1 /\ stdout m2 = stdout m1).
  { clear. induction s0 as [|a s0 IH]; intros m1 m2; simpl.
    - now intros [= <-].
    - intros H. apply bind_Ok in H as (m3 & H3 & H).
      apply IH in H as [-> ->].
      apply compile_char_step in H3. now destruct H3. }
  destruct (K _ _ _ E) as [-> ->]. repeat split.
Qed.

(** X12.  When [main] returns in run mode, the options are as they were
    given, the instruction memory is still what the compile loop built, the
    tape has as many cells as the [cn * sizeof(long)] bytes asked for hold
    (the product is taken in [size_t]; this is [cn] cells when
    [0 <= cn < 2^61]), what is left of the input is a suffix of the input
    given, and the instruction index has reached or passed the number of
    instructions. *)
Theorem run_mode_returns_with
    (c : config) (s : list ascii) (input : list byte) (fuel : nat)
    (m' : locals) :
  mode c = BF_MODE_RUN ->
  main c s input fuel = Ok m' ->
  cfg m' = c /\ compile c s = Ok (im m') /\
  length (cm m') = Z.to_nat (tape_bytes (cn c) / sizeof_long) /\
  (0 <= cn c < 2 ^ 61 -> length (cm m') = Z.to_nat (cn c)) /\
  (exists used, input = used ++ stdin m') /\
  Z.of_nat (length (im m')) <= ii m'.
Proof.
  intros Hmode H. unfold main in H.
  apply bind_Ok in H as (m & Hm & H).
  rewrite Hmode in H. revert H. switch_consts.
  destruct (PTRDIFF_MAX <? tape_bytes (cn c)); [discriminate |]. intros H.
  apply run_loop_keeps in H as [(K1 & K2 & K3 & K4 & K5 & K6) Hii].
  destruct (compile_loop_compile c s input m Hm) as (C1 & C2 & C3 & C4).
  simpl in *. rewrite length_replicate in K4. rewrite K1, K2, K4, <- C3.
  split; [exact C2 |]. split; [exact C1 |]. split; [reflexivity |].
  split; [| split; [exact K6 | exact Hii]].
  intros Hcn. now rewrite (proj2 (tape_bytes_small _ Hcn)).
Qed.

Lemma run_mode_returns_with_witness :
  exists m', main narrow (src ",[.,]") ["h"; "i"]%byte 20 = Ok m' /\
    cfg m' = narrow /\ compile narrow (src ",[.,]") = Ok (im m') /\
    length (cm m') = Z.to_nat (tape_bytes (cn narrow) / sizeof_long) /\
    (0 <= cn narrow < 2 ^ 61 -> length (cm m') = Z.to_nat (cn narrow)) /\
    (exists used, ["h"; "i"]%byte = used ++ stdin m') /\
    Z.of_nat (length (im m')) <= ii m'.
Proof.
  eexists. split; [vm_compute; reflexivity |].
  apply (run_mode_returns_with narrow (src ",[.,]") ["h"; "i"]%byte 20);
    vm_compute; reflexivity.
Defined.

(** ** Loops at run time *)

(** With every bracket closed, each bracket's [loop] field is a valid
    index: that of its partner. *)
Lemma match_inv_targets (ops : list Z) (lps : list (option Z)) (i : nat) :
  match_inv ops lps [] ->
  (ops !! i = Some BF_OP_LSTART ->
   exists j, matching_close ops i = Some j /\
     lps !! i = Some (Some (Z.of_nat j)) /\ (i < j < length ops)%nat) /\
  (ops !! i = Some BF_OP_LEND ->
   exists j, matching_close ops j = Some i /\
     lps !! i = Some (Some (Z.of_nat j)) /\ (j < i)%nat).
Proof.
  intros [Hlen Hst Hop Hcl].
  assert (Hopen : forall a, ops !! a = Some BF_OP_LSTART ->
            exists k, find_close (drop (S a) ops) 0 = inl k /\
              lps !! a = Some (Some (Z.of_nat (S a + k))) /\
              (S a + k < length ops)%nat).
  { intros a Ha. specialize (Hop a Ha).
    destruct (find_close (drop (S a) ops) 0) as [k|p] eqn:Hf.
    - destruct Hop as [H1 H2]. exists k. repeat split; [exact H1 |].
      apply lookup_lt_Some in H2. lia.
    - destruct Hop as [Hp _]. now rewrite lookup_nil in Hp. }
  split; intros Hi.
  - destruct (Hopen i Hi) as (k & Hf & Hl & Hlt).
    exists (S i + k)%nat. unfold matching_close. rewrite Hf.
    repeat split; try assumption; lia.
  - destruct (Hcl i Hi) as (j & H1 & Hlt & Ho & Hl).
    destruct (Hopen j Ho) as (k & Hf & Hl' & _).
    rewrite Hl in Hl'. injection Hl' as Hl'. apply Nat2Z.inj in Hl'.
    exists j. unfold matching_close. rewrite Hf.
    split; [f_equal; lia |]. split; assumption.
Qed.

Lemma compiled_targets (c : config) (s : list ascii) (l : list instruction)
    (i : nat) (x : instruction) :
  bracket_scan s 0 = Some 0%nat -> compile c s = Ok l ->
  l !! i = Some x ->
  (instruction_ x = BF_OP_LSTART ->
   exists j, matching_close (instruction_ <$> l) i = Some j /\
     loop x = Some (Z.of_nat j) /\ (i < j < length l)%nat) /\
  (instruction_ x = BF_OP_LEND ->
   exists j, matching_close (instruction_ <$> l) j = Some i /\
     loop x = Some (Z.of_nat j) /\ (j < i)%nat).
Proof.
  intros Hscan Hc Hx. unfold compile in Hc.
  apply bind_Ok in Hc as (m & Hm & [= <-]).
  destruct (compile_loop_scan s (start c []) 0 (compile_inv_start c []) Hscan)
    as (m0 & Hm0 & Hd).
  rewrite Hm in Hm0. injection Hm0 as <-.
  apply length_zero_iff_nil in Hd.
  pose proof (compile_loop_match s _ _ (compile_inv_start c [])
                match_inv_nil Hm) as Hinv.
  rewrite Hd in Hinv.
  destruct (match_inv_targets _ _ i Hinv) as [Ho Hc].
  rewrite !list_lookup_fmap, Hx in Ho, Hc. simpl in Ho, Hc.
  rewrite length_fmap in Ho.
  split; intros Hi; rewrite Hi in *.
  - destruct (Ho eq_refl) as (j & H1 & H2 & H3). exists j.
    split; [exact H1 |]. split; [congruence | exact H3].
  - destruct (Hc eq_refl) as (j & H1 & H2 & H3). exists j.
    split; [exact H1 |]. split; [congruence | exact H3].
Qed.

(** X13.  In the program compiled from a source with matched brackets, a
    [[[] met with the current cell at zero sends the run to the
    instruction after its matching [[]], so the body is skipped, and a
    [[]] met with the current cell not zero sends it to the instruction
    after its matching [[[], the first of the body; otherwise a bracket
    just passes to the next instruction. *)
Theorem bracket_jumps_past_partner
    (c : config) (s : list ascii) (l : list instruction) (m : locals)
    (i : nat) (x : instruction) (v : Z) (fuel : nat) :
  bracket_scan s 0 = Some 0%nat -> compile c s = Ok l ->
  im m = l -> ii m = Z.of_nat i -> l !! i = Some x ->
  read_cell m = Ok v ->
  (instruction_ x = BF_OP_LSTART ->
   exists j, matching_close (instruction_ <$> l) i = Some j /\
     run_loop (S fuel) m =
       run_loop fuel
         (set_ii (if v =? 0 then Z.of_nat j + 1 else Z.of_nat i + 1) m)) /\
  (instruction_ x = BF_OP_LEND ->
   exists j, matching_close (instruction_ <$> l) j = Some i /\
     run_loop (S fuel) m =
       run_loop fuel
         (set_ii (if v =? 0 then Z.of_nat i + 1 else Z.of_nat j + 1) m)).
Proof.
  intros Hscan Hc Him Hii Hx Hv.
  destruct (compiled_targets c s l i x Hscan Hc Hx) as [Ho Hcl].
  assert (Hfetch : zlookup (im m) (ii m) = Ok x).
  { apply zlookup_Ok. rewrite Him, Hii, Nat2Z.id. split; [lia | exact Hx]. }
  assert (Hlt : (ii m <? Z.of_nat (length (im m))) = true).
  { apply Z.ltb_lt. rewrite Him, Hii. apply lookup_lt_Some in Hx. lia. }
  split; intros Hi.
  - destruct (Ho Hi) as (j & Hj & Hl & _). exists j. split; [exact Hj |].
    cbn [run_loop]. rewrite Hlt, Hfetch. run_bind.
    unfold exec; cbv zeta. rewrite Hi, Hv, Hl. switch_consts. run_bind.
    destruct (v =? 0); simpl; [reflexivity | now rewrite Hii].
  - destruct (Hcl Hi) as (j & Hj & Hl & _). exists j. split; [exact Hj |].
    cbn [run_loop]. rewrite Hlt, Hfetch. run_bind.
    unfold exec; cbv zeta. rewrite Hi, Hv, Hl. switch_consts. run_bind.
    destruct (v =? 0); simpl; [now rewrite Hii | reflexivity].
Qed.

Lemma bracket_jumps_past_partner_witness :
  exists j, matching_close (instruction_ <$> im at_clear_loop) 0 = Some j /\
    run_loop 3 at_clear_loop =
      run_loop 2
        (set_ii (if 0 =? 0 then Z.of_nat j + 1 else Z.of_nat 0 + 1)
           at_clear_loop).
Proof.
  exact (proj1 (bracket_jumps_past_partner default_config (src "[-]+")
                  (im at_clear_loop) at_clear_loop 0
                  (mk_instruction BF_OP_LSTART None (Some 2)) 0 2
                  eq_refl eq_refl eq_refl eq_refl eq_refl eq_refl) eq_refl).
Defined.

Lemma run_loop_cursor (fuel : nat) (m m' : locals) :
  (forall i x, im m !! i = Some x ->
     instruction_ x = BF_OP_LSTART \/ instruction_ x = BF_OP_LEND ->
     exists t, loop x = Some t /\ 0 <= t < Z.of_nat (length (im m))) ->
  0 <= ii m <= Z.of_nat (length (im m)) ->
  run_loop fuel m = Ok m' ->
  ii m' = Z.of_nat (length (im m)).
Proof.
  revert m. induction fuel as [|fuel IH]; intros m Ht Hii; simpl;
    destruct (Z.ltb_spec (ii m) (Z.of_nat (length (im m)))) as [Hlt|Hge];
    try discriminate; try (intros [= <-]; lia).
  intros H. apply bind_Ok in H as (x & Hx & H).
  apply bind_Ok in H as (m1 & H1 & H).
  apply zlookup_Ok in Hx as [_ Hx].
  apply exec_keeps in H1 as [(_ & Him & _) Hcur].
  apply IH in H; simpl in *; rewrite ?Him in *; try assumption.
  destruct Hcur as [->|[Hb Hl]]; [lia |].
  destruct (Ht _ _ Hx Hb) as (t & Ht' & Hr). rewrite Hl in Ht'.
  injection Ht' as ->. lia.
Qed.

(** X14.  When [main] returns in run mode on a source with matched
    brackets, the instruction index is exactly the number of
    instructions: no jump leaves the instruction memory. *)
Theorem balanced_run_ends_at_last
    (c : config) (s : list ascii) (input : list byte) (fuel : nat)
    (m' : locals) :
  bracket_scan s 0 = Some 0%nat ->
  mode c = BF_MODE_RUN ->
  main c s input fuel = Ok m' ->
  ii m' = Z.of_nat (length (im m')).
Proof.
  intros Hscan Hmode H. unfold main in H.
  apply bind_Ok in H as (m & Hm & H).
  rewrite Hmode in H. revert H. switch_consts.
  destruct (PTRDIFF_MAX <? tape_bytes (cn c)); [discriminate |]. intros H.
  destruct (compile_loop_compile c s input m Hm) as (Hc & _).
  pose proof (run_loop_keeps _ _ _ H) as [(_ & Him & _) _]. simpl in Him.
  rewrite Him. apply run_loop_cursor in H; simpl; [exact H | | lia].
  intros i x Hx Hb.
  destruct (compiled_targets c s (im m) i x Hscan Hc Hx) as [Ho Hcl].
  destruct Hb as [Hb|Hb].
  - destruct (Ho Hb) as (j & _ & Hl & Hlt). exists (Z.of_nat j).
    split; [exact Hl | lia].
  - destruct (Hcl Hb) as (j & _ & Hl & Hlt). exists (Z.of_nat j).
    apply lookup_lt_Some in Hx. split; [exact Hl | lia].
Qed.

Lemma balanced_run_ends_at_last_witness :
  exists m', main narrow (src "+[-]") [] 10 = Ok m' /\
    ii m' = Z.of_nat (length (im m')).
Proof.
  eexists. split; [vm_compute; reflexivity |].
  apply (balanced_run_ends_at_last narrow (src "+[-]") [] 10);
    vm_compute; reflexivity.
Defined.

(** ** The compiled program against its source *)

Lemma compile_loop_strip (s : list ascii) (m : locals) :
  compile_loop (strip s) m = compile_loop s m.
Proof.
  revert m. induction s as [|a s IH]; intros m; simpl; [reflexivity |].
  destruct (is_op (chr a)) eqn:Hop; simpl.
  - destruct (compile_char (chr a) m); simpl; auto.
  - rewrite (compile_char_skip _ m Hop). run_bind. apply IH.
Qed.

(** X15.  Characters other than the eight operators do not matter: a
    source and the same source without them compile alike. *)
Theorem compile_ignores_other_characters (c : config) (s : list ascii) :
  compile c (strip s) = compile c s.
Proof. unfold compile. now rewrite compile_loop_strip. Qed.

Lemma compile_decode (c : config) (s : list ascii) (l : list instruction) :
  compile c s = Ok l -> decode l = chr <$> strip s.
Proof.
  unfold compile. intros H. apply bind_Ok in H as (m & Hm & [= <-]).
  exact (compile_loop_decode s _ _ (compile_inv_start c []) Hm).
Qed.

(** X16.  Compiling loses nothing but the ignored characters: writing
    each instruction of the compiled program out as [quantity] copies of
    its character (one copy for a bracket) gives back the operator
    characters of the source, in order. *)
Theorem compile_decodes_to_source
    (c : config) (s : list ascii) (l : list instruction) :
  compile c s = Ok l -> decode l = chr <$> strip s.
Proof. apply compile_decode. Qed.

Lemma compile_decodes_to_source_witness :
  decode [mk_instruction BF_OP_VINC (Some 3) None;
          mk_instruction BF_OP_LSTART None (Some 3);
          mk_instruction BF_OP_VDEC (Some 2) None;
          mk_instruction BF_OP_LEND None (Some 1)] =
    chr <$> strip (src "++ + [ -x- ]").
Proof.
  exact (compile_decodes_to_source default_config (src "++ + [ -x- ]")
           [mk_instruction BF_OP_VINC (Some 3) None;
            mk_instruction BF_OP_LSTART None (Some 3);
            mk_instruction BF_OP_VDEC (Some 2) None;
            mk_instruction BF_OP_LEND None (Some 1)]
           eq_refl).
Defined.

Lemma folded_up_snoc (ops : list Z) (b : Z) :
  folded_up ops ->
  (forall a, last ops = Some a -> foldable a = true -> a <> b) ->
  folded_up (ops ++ [b]).
Proof.
  intros Hops Hlast i a b0 Hi HSi Hf.
  apply lookup_snoc_Some in HSi as [[Hlt HSi]|[Hlen <-]].
  - rewrite lookup_app_l in Hi by lia. exact (Hops i a b0 Hi HSi Hf).
  - rewrite lookup_app_l in Hi by lia. apply Hlast; [| exact Hf].
    rewrite last_lookup, <- Hlen. exact Hi.
Qed.

Lemma char_step_folded_up (i : Z) (m m' : locals) :
  folded_up (instruction_ <$> im m) -> char_step i m m' ->
  folded_up (instruction_ <$> im m').
Proof.
  intros Hf Hstep.
  destruct Hstep as [Hop|l x q Hfo Hl Hx Hqx|Hfo Hlast|Ho|t rest Hc Hls Ht];
    simpl.
  - exact Hf.
  - rewrite Hl, fmap_snoc in Hf. now rewrite fmap_snoc.
  - rewrite fmap_snoc. apply folded_up_snoc; [exact Hf |].
    intros a Ha _ ->. now destruct Hlast.
  - subst i. rewrite fmap_snoc. apply folded_up_snoc; [exact Hf |].
    intros a _ Ha. now destruct (foldable_not_bracket a Ha).
  - subst i. rewrite fmap_alter_set_loop by reflexivity.
    rewrite fmap_snoc. apply folded_up_snoc; [exact Hf |].
    intros a _ Ha. now destruct (foldable_not_bracket a Ha).
Qed.

Lemma compile_loop_folded_up (s : list ascii) (m m' : locals) :
  folded_up (instruction_ <$> im m) -> compile_loop s m = Ok m' ->
  folded_up (instruction_ <$> im m').
Proof.
  revert m. induction s as [|a s IH]; intros m Hf; simpl.
  - now intros [= <-].
  - intros H. apply bind_Ok in H as (m1 & H1 & H2).
    apply (IH m1); [| exact H2].
    exact (char_step_folded_up _ _ _ Hf (compile_char_step _ _ _ H1)).
Qed.

(** X17.  Folding is complete: in a compiled program no instruction of one
    of the six foldable types is directly followed by an instruction of
    the same type. *)
Theorem no_two_alike_in_a_row
    (c : config) (s : list ascii) (l : list instruction)
    (i : nat) (x y : instruction) :
  compile c s = Ok l ->
  l !! i = Some x -> l !! S i = Some y ->
  foldable (instruction_ x) = true ->
  instruction_ y <> instruction_ x.
Proof.
  unfold compile. intros H Hx Hy Hf.
  apply bind_Ok in H as (m & Hm & [= <-]).
  assert (H0 : folded_up (instruction_ <$> im (start c [])))
    by (intros j a b Hj; simpl in Hj; now rewrite lookup_nil in Hj).
  pose proof (compile_loop_folded_up s _ _ H0 Hm) as Hfu.
  intros E. apply (Hfu i (instruction_ x) (instruction_ y)); auto.
  - now rewrite list_lookup_fmap, Hx.
  - now rewrite list_lookup_fmap, Hy.
Qed.

Lemma no_two_alike_in_a_row_witness :
  instruction_ (mk_instruction BF_OP_VDEC (Some 1) None) <>
  instruction_ (mk_instruction BF_OP_VINC (Some 2) None).
Proof.
  exact (no_two_alike_in_a_row default_config (src "+x+-+")
           [mk_instruction BF_OP_VINC (Some 2) None;
            mk_instruction BF_OP_VDEC (Some 1) None;
            mk_instruction BF_OP_VINC (Some 1) None]
           0 _ _ eq_refl eq_refl eq_refl eq_refl).
Defined.

Lemma instruction_in_source
    (c : config) (s : list ascii) (l : list instruction) (x : instruction) :
  compile c s = Ok l -> x ∈ l ->
  (if foldable (instruction_ x)
   then exists q, quantity x = Some q /\ 1 <= q
   else quantity x = None) /\
  exists a, a ∈ s /\ is_op (chr a) = true /\ instruction_ x = chr a.
Proof.
  intros H Hx.
  unfold compile in H. apply bind_Ok in H as (m & Hm & [= <-]).
  pose proof (compile_loop_inv _ _ _ (compile_inv_start c []) Hm) as [_ _ Hq].
  pose proof (compile_loop_decode s _ _ (compile_inv_start c []) Hm) as Hd.
  simpl in Hd. rewrite Forall_forall in Hq. specialize (Hq x Hx).
  split; [exact Hq |].
  assert (Hin : instruction_ x ∈ decode (im m)).
  { unfold decode. apply list_elem_of_bind. exists x. split; [| exact Hx].
    unfold expand. apply elem_of_replicate. split; [reflexivity |].
    destruct (foldable (instruction_ x)).
    - destruct Hq as (q & -> & Hq1). simpl. lia.
    - rewrite Hq. simpl. lia. }
  rewrite Hd in Hin. apply list_elem_of_fmap in Hin as (a & Ha & Hin).
  exists a. apply list_elem_of_In in Hin. unfold strip in Hin.
  apply filter_In in Hin as [Hin Hop]. apply list_elem_of_In in Hin.
  auto.
Qed.

(** X18.  Every instruction of a compiled program has the type of one of
    the eight operator characters, taken from the source; one of a
    foldable type has a quantity of at least 1, and a bracket instruction
    has no quantity at all. *)
Theorem compiled_instruction_shape
    (c : config) (s : list ascii) (l : list instruction) (x : instruction) :
  compile c s = Ok l -> x ∈ l ->
  is_op (instruction_ x) = true /\
  (exists a, a ∈ s /\ instruction_ x = chr a) /\
  (foldable (instruction_ x) = true ->
   exists q, quantity x = Some q /\ 1 <= q) /\
  (foldable (instruction_ x) = false -> quantity x = None).
Proof.
  intros H Hx.
  destruct (instruction_in_source c s l x H Hx) as [Hq (a & Ha & Hop & E)].
  split; [now rewrite E |]. split; [eauto |].
  split; intros Hf; rewrite Hf in Hq; exact Hq.
Qed.

Lemma compiled_instruction_shape_witness :
  is_op (instruction_ (mk_instruction BF_OP_VINC (Some 2) None)) = true /\
  (exists a, a ∈ src "++[" /\
     instruction_ (mk_instruction BF_OP_VINC (Some 2) None) = chr a) /\
  (foldable (instruction_ (mk_instruction BF_OP_VINC (Some 2) None)) = true ->
   exists q, quantity (mk_instruction BF_OP_VINC (Some 2) None) = Some q /\
             1 <= q) /\
  (foldable (instruction_ (mk_instruction BF_OP_VINC (Some 2) None)) = false ->
   quantity (mk_instruction BF_OP_VINC (Some 2) None) = None).
Proof.
  apply (compiled_instruction_shape default_config (src "++[")
           [mk_instruction BF_OP_VINC (Some 2) None;
            mk_instruction BF_OP_LSTART None None]);
    [reflexivity | apply list_elem_of_here].
Defined.

(** X19.  The compile loop never ends the program: it builds an
    instruction sequence for every source in which each [[]] finds a [[[]
    pending, and for every other source it reads the loop stack below its
    first entry, which C leaves undefined. *)
Theorem compile_outcome (c : config) (s : list ascii) :
  match bracket_scan s 0 with
  | Some d => exists l, compile c s = Ok l
  | None => compile c s = Undefined
  end.
Proof.
  unfold compile. destruct (bracket_scan s 0) as [d|] eqn:E.
  - destruct (compile_loop_scan s (start c []) d (compile_inv_start c []) E)
      as (m & -> & _). simpl. eauto.
  - now rewrite (compile_loop_underflow s (start c [])
                   (compile_inv_start c []) E).
Qed.

(** X20.  In any compiled program, a [[[] instruction whose matching
    [[]] is in the source has it as its target, and a [[[] that is never
    closed has no target; when the run meets the latter with the current
    cell at zero it reads the unset field. *)
Theorem open_bracket_target
    (c : config) (s : list ascii) (l : list instruction)
    (i : nat) (x : instruction) :
  compile c s = Ok l -> l !! i = Some x ->
  instruction_ x = BF_OP_LSTART ->
  loop x = Z.of_nat <$> matching_close (instruction_ <$> l) i /\
  (matching_close (instruction_ <$> l) i = None ->
   forall m, read_cell m = Ok 0 -> exec x m = Undefined).
Proof.
  unfold compile. intros H Hx Hi.
  apply bind_Ok in H as (m & Hm & [= <-]).
  pose proof (compile_loop_match s _ _ (compile_inv_start c [])
                match_inv_nil Hm) as [_ _ Hop _].
  assert (Ho : (instruction_ <$> im m) !! i = Some BF_OP_LSTART)
    by now rewrite list_lookup_fmap, Hx, <- Hi.
  specialize (Hop i Ho). unfold matching_close.
  assert (Hl : loop x =
               Z.of_nat <$>
                 match find_close (drop (S i) (instruction_ <$> im m)) 0 with
                 | inl k => Some (S i + k)%nat
                 | inr _ => None
                 end).
  { destruct (find_close (drop (S i) (instruction_ <$> im m)) 0) as [k|p];
      destruct Hop as [H1 H2].
    - rewrite list_lookup_fmap, Hx in H1. simpl in H1. simpl. congruence.
    - rewrite list_lookup_fmap, Hx in H2. simpl in H2. simpl. congruence. }
  split; [exact Hl |].
  intros Hnone m0 Hv. rewrite Hnone in Hl. simpl in Hl.
  unfold exec; cbv zeta. rewrite Hi, Hv, Hl. switch_consts. reflexivity.
Qed.

Lemma open_bracket_target_witness :
  loop (mk_instruction BF_OP_LSTART None None) =
    Z.of_nat <$>
      matching_close
        (instruction_ <$>
           [mk_instruction BF_OP_LSTART None None;
            mk_instruction BF_OP_LSTART None (Some 3);
            mk_instruction BF_OP_VDEC (Some 1) None;
            mk_instruction BF_OP_LEND None (Some 1)]) 0 /\
  (matching_close
     (instruction_ <$>
        [mk_instruction BF_OP_LSTART None None;
         mk_instruction BF_OP_LSTART None (Some 3);
         mk_instruction BF_OP_VDEC (Some 1) None;
         mk_instruction BF_OP_LEND None (Some 1)]) 0 = None ->
   forall m, read_cell m = Ok 0 ->
     exec (mk_instruction BF_OP_LSTART None None) m = Undefined).
Proof.
  exact (open_bracket_target default_config (src "[[-]")
           [mk_instruction BF_OP_LSTART None None;
            mk_instruction BF_OP_LSTART None (Some 3);
            mk_instruction BF_OP_VDEC (Some 1) None;
            mk_instruction BF_OP_LEND None (Some 1)]
           0 _ eq_refl eq_refl eq_refl).
Defined.

(** ** Dump mode and the mode switch *)

Lemma dump_loop_defined (j : Z) (l : list instruction) :
  Forall (fun x => exists q, quantity x = Some q) l ->
  exists out, dump_loop j l = Ok out.
Proof.
  intros H. revert j. induction H as [|x l [q Hq] _ IH]; intros j; simpl.
  - eauto.
  - destruct (IH (j + 1)) as [out ->]. unfold dump_one. rewrite Hq.
    simpl. eauto.
Qed.

Lemma dump_loop_undefined (j : Z) (l : list instruction) (x : instruction) :
  x ∈ l -> quantity x = None -> dump_loop j l = Undefined.
Proof.
  intros Hx Hq. revert j.
  induction Hx as [x l|x y l Hx IH]; intros j; simpl.
  - unfold dump_one. rewrite Hq. reflexivity.
  - rewrite (IH Hq). unfold dump_one.
    destruct (quantity y); reflexivity.
Qed.

Lemma has_bracket_spec (s : list ascii) :
  has_bracket s = true <->
  exists a, a ∈ s /\ (chr a = BF_OP_LSTART \/ chr a = BF_OP_LEND).
Proof.
  unfold has_bracket. rewrite existsb_exists. split.
  - intros (a & Ha & Hb). exists a. split; [now apply list_elem_of_In |].
    apply orb_true_iff in Hb as [Hb|Hb]; apply Z.eqb_eq in Hb; auto.
  - intros (a & Ha & Hb). exists a. split; [now apply list_elem_of_In |].
    apply orb_true_iff. destruct Hb as [->| ->]; auto.
Qed.

(** X21.  Dump mode prints a program only if the source has no bracket:
    for a source with a [[[] or a [[]] (and no [[]] without a pending
    [[[]) the dump loop reads a quantity that was never written, and for a
    source without brackets [main] returns with the dump on the output. *)
Theorem dump_mode_outcome
    (c : config) (s : list ascii) (input : list byte) (fuel d : nat) :
  mode c = BF_MODE_DUMP ->
  bracket_scan s 0 = Some d ->
  if has_bracket s
  then main c s input fuel = Undefined
  else exists m' out, main c s input fuel = Ok m' /\
         compile c s = Ok (im m') /\ dump_loop 0 (im m') = Ok out /\
         stdout m' = out /\ stdin m' = input.
Proof.
  intros Hmode Hscan.
  destruct (compile_loop_scan s (start c input) d
              (compile_inv_start c input) Hscan) as (m & Hm & _).
  destruct (compile_loop_compile c s input m Hm) as (Hc & _ & Hin & Hout).
  unfold main. rewrite Hm. run_bind. rewrite Hmode. switch_consts.
  destruct (has_bracket s) eqn:Hb.
  - apply has_bracket_spec in Hb as (a & Ha & Hb).
    assert (Hd : chr a ∈ decode (im m)).
    { rewrite (compile_decode c s (im m) Hc).
      apply list_elem_of_fmap_2. apply list_elem_of_In. unfold strip.
      apply filter_In. split; [now apply list_elem_of_In |].
      destruct Hb as [-> | ->]; reflexivity. }
    unfold decode in Hd. apply list_elem_of_bind in Hd as (x & Hx1 & Hx).
    apply elem_of_replicate_inv in Hx1.
    destruct (instruction_in_source c s (im m) x Hc Hx) as [Hq _].
    rewrite <- Hx1 in Hq.
    assert (Hnf : foldable (chr a) = false)
      by (destruct Hb as [-> | ->]; reflexivity).
    rewrite Hnf in Hq. now rewrite (dump_loop_undefined 0 _ x Hx Hq).
  - assert (Hall : Forall (fun x => exists q, quantity x = Some q) (im m)).
    { apply Forall_forall. intros x Hx.
      destruct (instruction_in_source c s (im m) x Hc Hx)
        as [Hq (a & Ha & Hop & E)].
      destruct (foldable (instruction_ x)) eqn:Hf.
      - destruct Hq as (q & Hq & _). eauto.
      - exfalso. assert (Hb' : has_bracket s = true).
        { apply has_bracket_spec. exists a. split; [exact Ha |].
          rewrite <- E. unfold is_op in Hop. rewrite E in Hf.
          rewrite Hf in Hop. simpl in Hop. rewrite E.
          apply orb_true_iff in Hop as [Hop|Hop]; apply Z.eqb_eq in Hop; auto. }
        congruence. }
    destruct (dump_loop_defined 0 _ Hall) as [out Ho].
    rewrite Ho. run_bind. eexists _, out. split; [reflexivity |].
    simpl. rewrite Hout. repeat split; assumption.
Qed.

Lemma dump_mode_outcome_witness :
  main dumping (src "+[-]") [] 0 = Undefined /\
  exists m' out, main dumping (src "+++.") [] 0 = Ok m' /\
    compile dumping (src "+++.") = Ok (im m') /\
    dump_loop 0 (im m') = Ok out /\ stdout m' = out /\ stdin m' = [].
Proof.
  split.
  - exact (dump_mode_outcome dumping (src "+[-]") [] 0 0 eq_refl eq_refl).
  - exact (dump_mode_outcome dumping (src "+++.") [] 0 0 eq_refl eq_refl).
Defined.

(** X22.  A mode character other than [d] and [r] ends the program with
    "invalid mode", but only after the whole source has been compiled: a
    source with a [[]] that finds no pending [[[] fails in the compile loop
    first. *)
Theorem unknown_mode_dies
    (c : config) (s : list ascii) (input : list byte) (fuel : nat) :
  mode c <> BF_MODE_DUMP -> mode c <> BF_MODE_RUN ->
  main c s input fuel =
    match bracket_scan s 0 with
    | Some _ => Die "invalid mode"
    | None => Undefined
    end.
Proof.
  intros Hd Hr. unfold main. destruct (bracket_scan s 0) as [d|] eqn:E.
  - destruct (compile_loop_scan s (start c input) d
                (compile_inv_start c input) E) as (m & -> & _).
    run_bind.
    now rewrite (proj2 (Z.eqb_neq _ _) Hd), (proj2 (Z.eqb_neq _ _) Hr).
  - now rewrite (compile_loop_underflow s (start c input)
                   (compile_inv_start c input) E).
Qed.

Lemma unknown_mode_dies_witness :
  main unknown_mode (src "+[") [] 5 = Die "invalid mode" /\
  main unknown_mode (src "]+") [] 5 = Undefined.
Proof.
  split.
  - apply (unknown_mode_dies unknown_mode (src "+[") [] 5); by_values.
  - apply (unknown_mode_dies unknown_mode (src "]+") [] 5); by_values.
Defined.

(** ** What a run cannot do *)

Lemma run_loop_invariant (P : locals -> Prop) :
  (forall m x m1, P m -> zlookup (im m) (ii m) = Ok x ->
     exec x m = Ok m1 -> P (set_ii (ii m1 + 1) m1)) ->
  forall fuel m m', P m -> run_loop fuel m = Ok m' -> P m'.
Proof.
  intros Hstep. induction fuel as [|fuel IH]; intros m m' HP; simpl;
    destruct (ii m <? Z.of_nat (length (im m)));
    try discriminate; try (now intros [= <-]).
  intros H. apply bind_Ok in H as (x & Hx & H).
  apply bind_Ok in H as (m1 & H1 & H).
  exact (IH _ _ (Hstep _ _ _ HP Hx H1) H).
Qed.

Lemma write_cell_ci (v : Z) (m m' : locals) :
  write_cell v m = Ok m' -> ci m' = ci m.
Proof. intros H. now apply write_cell_inv in H as ->. Qed.

Lemma read_turn_ci (m m' : locals) : read_turn m = Ok m' -> ci m' = ci m.
Proof.
  unfold read_turn; cbv zeta. destruct (stdin m) as [|b rest].
  - intros H. apply bind_Ok in H as (k & _ & H). now apply write_cell_ci in H.
  - intros H. now apply write_cell_ci in H.
Qed.

Lemma write_turn_ci (m m' : locals) : write_turn m = Ok m' -> ci m' = ci m.
Proof.
  unfold write_turn. intros H. now apply bind_Ok in H as (v & _ & [= <-]).
Qed.

Lemma turns_ci (n : nat) (body : locals -> result locals) (m m' : locals) :
  (forall a b, body a = Ok b -> ci b = ci a) ->
  turns n body m = Ok m' -> ci m' = ci m.
Proof.
  intros Hbody. revert m. induction n as [|n IH]; intros m; simpl.
  - now intros [= <-].
  - intros H. apply bind_Ok in H as (m1 & H1 & H2).
    rewrite (IH _ H2). now apply Hbody.
Qed.

(** Only the two pointer instructions change the cell index, and with a
    quantity that is not negative and a behaviour other than [w] they
    leave it on the tape. *)
Lemma exec_pointer_on_tape (x : instruction) (m m' : locals) :
  exec x m = Ok m' ->
  cw (cfg m) <> BF_END_WRAP ->
  (forall q, quantity x = Some q -> 0 <= q) ->
  0 <= ci m < cn (cfg m) ->
  0 <= ci m' < cn (cfg m).
Proof.
  intros H Hcw Hq Hci. apply Z.eqb_neq in Hcw.
  unfold exec in H; cbv zeta in H. rewrite ?Hcw in H.
  repeat match type of H with
  | (if ?b then _ else _) = Ok _ => destruct b eqn:?
  | (_ ≫= _) = Ok _ =>
      let a := fresh "a" in let Ha := fresh "Ha" in
      apply bind_Ok in H as (a & Ha & H)
  | Die _ = Ok _ => discriminate H
  end;
  repeat match goal with
  | Hw : write_cell _ _ = Ok _ |- _ => apply write_cell_ci in Hw
  | Hr : repeat_quantity _ _ _ = Ok _ |- _ =>
      unfold repeat_quantity in Hr;
      match type of Hr with (if ?b then _ else _) = _ =>
        destruct b; [discriminate Hr |] end;
      first [ apply (turns_ci _ _ _ _ read_turn_ci) in Hr
            | apply (turns_ci _ _ _ _ write_turn_ci) in Hr ]
  | Hok : Ok _ = Ok _ |- _ => injection Hok as <-
  | Hl : ladd _ _ = Ok _ |- _ =>
      unfold ladd, long in Hl;
      match type of Hl with (if ?b then _ else _) = _ =>
        destruct b; [injection Hl as <- | discriminate Hl] end
  | Hl : lsub _ _ = Ok _ |- _ =>
      unfold lsub, long in Hl;
      match type of Hl with (if ?b then _ else _) = _ =>
        destruct b; [injection Hl as <- | discriminate Hl] end
  | Hl : written (quantity ?y) = Ok _ |- _ =>
      unfold written in Hl; destruct (quantity y) eqn:?;
      [injection Hl as -> | discriminate Hl]
  end;
  simpl; try congruence; try lia.
  all: repeat match goal with
       | Hb : (_ >? _) = _ |- _ => rewrite Z.gtb_ltb in Hb
       | Hb : (_ <? _) = true |- _ => apply Z.ltb_lt in Hb
       | Hb : (_ <? _) = false |- _ => apply Z.ltb_ge in Hb
       end.
  all: try (specialize (Hq _ eq_refl)); lia.
Qed.

Lemma compiled_quantities_nonneg
    (c : config) (s : list ascii) (input : list byte) (m : locals)
    (x : instruction) (q : Z) :
  compile_loop s (start c input) = Ok m -> x ∈ im m ->
  quantity x = Some q -> 0 <= q.
Proof.
  intros Hm Hx Hq.
  pose proof (compile_loop_inv _ _ _ (compile_inv_start c input) Hm)
    as [_ _ Hall].
  rewrite Forall_forall in Hall. specialize (Hall x Hx).
  destruct (foldable (instruction_ x)).
  - destruct Hall as (q' & Hq' & H1). rewrite Hq in Hq'.
    injection Hq' as ->. lia.
  - congruence.
Qed.

Lemma compile_loop_ci (s : list ascii) (m m' : locals) :
  compile_loop s m = Ok m' -> ci m' = ci m /\ cm m' = cm m.
Proof.
  revert m. induction s as [|a s IH]; intros m; simpl.
  - now intros [= <-].
  - intros H. apply bind_Ok in H as (m1 & H1 & H).
    apply IH in H as [-> ->].
    apply compile_char_step in H1. now destruct H1.
Qed.

(** X23.  Unless the cell-pointer behaviour is [w], the cell index never
    leaves the tape: when [main] returns in run mode with [0 < cn < 2^61]
    (so that the tape allocated has [cn] cells), the index is in
    [[0, cn - 1]] and the current cell exists. *)
Theorem pointer_stays_on_tape
    (c : config) (s : list ascii) (input : list byte) (fuel : nat)
    (m' : locals) :
  mode c = BF_MODE_RUN -> cw c <> BF_END_WRAP -> 0 < cn c < 2 ^ 61 ->
  main c s input fuel = Ok m' ->
  0 <= ci m' < cn c /\ length (cm m') = Z.to_nat (cn c) /\
  exists v, read_cell m' = Ok v.
Proof.
  intros Hmode Hcw Hcn H. unfold main in H.
  apply bind_Ok in H as (m & Hm & H).
  rewrite Hmode in H. revert H. switch_consts.
  destruct (PTRDIFF_MAX <? tape_bytes (cn c)); [discriminate |]. intros H.
  destruct (compile_loop_compile c s input m Hm) as (_ & Hcfg & _).
  pose proof (run_loop_keeps _ _ _ H) as [(_ & _ & _ & Hlen & _) _].
  simpl in Hlen. rewrite length_replicate in Hlen.
  rewrite (proj2 (tape_bytes_small (cn c) ltac:(lia))) in Hlen.
  assert (Hci : cfg m' = c /\ im m' = im m /\ 0 <= ci m' < cn c).
  { apply (run_loop_invariant
             (fun a => cfg a = c /\ im a = im m /\ 0 <= ci a < cn c))
      in H; [exact H | | simpl].
    - intros a x a1 (A1 & A2 & A3) Hx H1. simpl.
      pose proof (exec_keeps _ _ _ H1) as [(K1 & K2 & _) _].
      split; [congruence |]. split; [congruence |].
      rewrite <- A1. apply (exec_pointer_on_tape x a a1 H1);
        rewrite ?A1; try assumption.
      intros q Hq. apply zlookup_Ok in Hx as [_ Hx]. rewrite A2 in Hx.
      apply (compiled_quantities_nonneg c s input m x q Hm); [| exact Hq].
      apply list_elem_of_lookup. eauto.
    - destruct (compile_loop_ci _ _ _ Hm) as [Hci0 _]. simpl in Hci0.
      repeat split; try assumption; lia. }
  destruct Hci as (_ & _ & Hci). split; [exact Hci |].
  split; [exact Hlen |].
  unfold read_cell.
  destruct (lookup_lt_is_Some_2 (cm m') (Z.to_nat (ci m'))) as [v Hv];
    [lia |].
  exists v. apply zlookup_Ok. split; [lia | exact Hv].
Qed.

Lemma pointer_stays_on_tape_witness :
  exists m', main saturating (src ">>>>>+<<") [] 10 = Ok m' /\
    0 <= ci m' < cn saturating /\
    length (cm m') = Z.to_nat (cn saturating) /\
    exists v, read_cell m' = Ok v.
Proof.
  eexists. split; [vm_compute; reflexivity |].
  apply (pointer_stays_on_tape saturating (src ">>>>>+<<") [] 10);
    first [reflexivity | (vm_compute; reflexivity) | by_values
          | (simpl; lia) ].
Defined.

Lemma write_cell_range (c : config) (v : Z) (m m' : locals) :
  write_cell v m = Ok m' -> in_range c v ->
  Forall (in_range c) (cm m) -> Forall (in_range c) (cm m').
Proof.
  intros H Hv Hall. apply write_cell_inv in H as ->. simpl.
  apply Forall_alter; auto.
Qed.

Lemma read_cell_range (c : config) (v : Z) (m : locals) :
  read_cell m = Ok v -> Forall (in_range c) (cm m) -> in_range c v.
Proof.
  unfold read_cell. intros H Hall. apply zlookup_Ok in H as [_ H].
  rewrite Forall_forall in Hall. apply Hall, list_elem_of_lookup. eauto.
Qed.

Lemma read_turn_range (m m' : locals) :
  read_turn m = Ok m' ->
  va (cfg m) <= 0 -> 255 <= vb (cfg m) ->
  ce (cfg m) <> BF_EOF_NEGONE -> ce (cfg m) <> BF_EOF_NOCHG ->
  Forall (in_range (cfg m)) (cm m) ->
  Forall (in_range (cfg m')) (cm m') /\ cfg m' = cfg m.
Proof.
  intros H Hva Hvb E1 E2 Hall.
  pose proof (read_turn_keeps _ _ H) as [(Hcfg & _) _].
  split; [| exact Hcfg]. rewrite Hcfg.
  unfold read_turn in H; cbv zeta in H.
  destruct (stdin m) as [|b rest].
  - apply bind_Ok in H as (k & Hk & H).
    apply (write_cell_range _ _ _ _ H); [| exact Hall].
    apply Z.eqb_neq in E1, E2. rewrite E1, E2 in Hk.
    unfold in_range.
    destruct (ce (cfg m) =? BF_EOF_ZERO); [injection Hk as <-; lia |].
    destruct (ce (cfg m) =? BF_EOF_MIN); [injection Hk as <-; lia |].
    destruct (ce (cfg m) =? BF_EOF_MAX); [injection Hk as <-; lia |].
    discriminate.
  - apply (write_cell_range _ _ _ _ H); [| exact Hall].
    pose proof (byte_value_range b). unfold in_range. lia.
Qed.

Lemma turns_read_range (n : nat) (m m' : locals) :
  turns n read_turn m = Ok m' ->
  va (cfg m) <= 0 -> 255 <= vb (cfg m) ->
  ce (cfg m) <> BF_EOF_NEGONE -> ce (cfg m) <> BF_EOF_NOCHG ->
  Forall (in_range (cfg m)) (cm m) ->
  Forall (in_range (cfg m)) (cm m').
Proof.
  revert m. induction n as [|n IH]; intros m; simpl.
  - now intros [= <-].
  - intros H Hva Hvb E1 E2 Hall. apply bind_Ok in H as (m1 & H1 & H).
    destruct (read_turn_range _ _ H1 Hva Hvb E1 E2 Hall) as [Hall1 Hcfg].
    rewrite <- Hcfg. apply (IH m1 H); rewrite ?Hcfg; try assumption.
    now rewrite <- Hcfg.
Qed.

(** The cells are written by the two value instructions and by reads
    only. *)
Lemma exec_cm_same (x : instruction) (m m' : locals) :
  exec x m = Ok m' ->
  instruction_ x <> BF_OP_VINC -> instruction_ x <> BF_OP_VDEC ->
  instruction_ x <> BF_OP_IN ->
  cm m' = cm m.
Proof.
  intros H E1 E2 E3. apply Z.eqb_neq in E1, E2, E3.
  unfold exec in H; cbv zeta in H. rewrite E1, E2, E3 in H.
  repeat match type of H with
  | (if ?b then _ else _) = Ok _ => destruct b eqn:?
  | (_ ≫= _) = Ok _ =>
      let a := fresh "a" in let Ha := fresh "Ha" in
      apply bind_Ok in H as (a & Ha & H)
  | Die _ = Ok _ => discriminate H
  end;
  try (injection H as <-; reflexivity).
  unfold repeat_quantity in H. destruct (a <? 0); [discriminate |].
  clear -H. revert m H. induction (Z.to_nat a) as [|n IH]; intros m; simpl.
  - now intros [= <-].
  - intros H. apply bind_Ok in H as (m1 & H1 & H).
    rewrite (IH _ H). unfold write_turn in H1.
    now apply bind_Ok in H1 as (v & _ & [= <-]).
Qed.

Lemma exec_cells_in_range (x : instruction) (m m' : locals) :
  exec x m = Ok m' ->
  vw (cfg m) <> BF_END_WRAP ->
  va (cfg m) <= 0 -> 255 <= vb (cfg m) ->
  ce (cfg m) <> BF_EOF_NEGONE -> ce (cfg m) <> BF_EOF_NOCHG ->
  (forall q, quantity x = Some q -> 0 <= q) ->
  Forall (in_range (cfg m)) (cm m) ->
  Forall (in_range (cfg m)) (cm m').
Proof.
  intros H Hvw Hva Hvb E1 E2 Hq Hall.
  destruct (Z.eqb_spec (instruction_ x) BF_OP_VINC) as [Hi|N1].
  { unfold exec in H; cbv zeta in H. rewrite Hi in H. revert H.
    switch_consts. intros H.
    apply bind_Ok in H as (v & Hv & H). apply bind_Ok in H as (q & Hqx & H).
    apply bind_Ok in H as (n & Hn & H).
    unfold written in Hqx. destruct (quantity x) as [q'|] eqn:Eq;
      [injection Hqx as -> | discriminate].
    specialize (Hq q eq_refl).
    unfold ladd, long in Hn. destruct (in_long (v + q)); [| discriminate].
    injection Hn as <-.
    pose proof (read_cell_range _ _ _ Hv Hall) as Hr. unfold in_range in Hr.
    apply Z.eqb_neq in Hvw. rewrite Hvw in H.
    destruct (v + q >? vb (cfg m)) eqn:Hgt.
    - destruct (vw (cfg m) =? BF_END_ERROR); [discriminate |].
      destruct (vw (cfg m) =? BF_END_IGNORE); [| discriminate].
      apply (write_cell_range _ _ _ _ H); [unfold in_range; lia | exact Hall].
    - rewrite Z.gtb_ltb in Hgt. apply Z.ltb_ge in Hgt.
      apply (write_cell_range _ _ _ _ H); [unfold in_range; lia | exact Hall]. }
  destruct (Z.eqb_spec (instruction_ x) BF_OP_VDEC) as [Hi|N2].
  { unfold exec in H; cbv zeta in H. rewrite Hi in H. revert H.
    switch_consts. intros H.
    apply bind_Ok in H as (v & Hv & H). apply bind_Ok in H as (q & Hqx & H).
    apply bind_Ok in H as (n & Hn & H).
    unfold written in Hqx. destruct (quantity x) as [q'|] eqn:Eq;
      [injection Hqx as -> | discriminate].
    specialize (Hq q eq_refl).
    unfold lsub, long in Hn. destruct (in_long (v - q)); [| discriminate].
    injection Hn as <-.
    pose proof (read_cell_range _ _ _ Hv Hall) as Hr. unfold in_range in Hr.
    apply Z.eqb_neq in Hvw. rewrite Hvw in H.
    destruct (Z.ltb_spec (v - q) (va (cfg m))) as [Hlt|Hge].
    - destruct (vw (cfg m) =? BF_END_ERROR); [discriminate |].
      destruct (vw (cfg m) =? BF_END_IGNORE); [| discriminate].
      apply (write_cell_range _ _ _ _ H); [unfold in_range; lia | exact Hall].
    - apply (write_cell_range _ _ _ _ H); [unfold in_range; lia | exact Hall]. }
  destruct (Z.eqb_spec (instruction_ x) BF_OP_IN) as [Hi|N3].
  { unfold exec in H; cbv zeta in H. rewrite Hi in H. revert H.
    switch_consts. intros H.
    apply bind_Ok in H as (q & _ & H). unfold repeat_quantity in H.
    destruct (q <? 0); [discriminate |].
    exact (turns_read_range _ _ _ H Hva Hvb E1 E2 Hall). }
  now rewrite (exec_cm_same x m m' H N1 N2 N3).
Qed.

(** X24.  With a value behaviour other than [w], a range that contains
    every byte ([va <= 0] and [255 <= vb]) and an end-of-file behaviour
    other than [n] and [x], no cell ever leaves [[va, vb]]: when [main]
    returns in run mode, every cell of the tape is within the range. *)
Theorem cells_stay_in_range
    (c : config) (s : list ascii) (input : list byte) (fuel : nat)
    (m' : locals) :
  mode c = BF_MODE_RUN -> vw c <> BF_END_WRAP ->
  va c <= 0 -> 255 <= vb c ->
  ce c <> BF_EOF_NEGONE -> ce c <> BF_EOF_NOCHG ->
  main c s input fuel = Ok m' ->
  Forall (in_range c) (cm m').
Proof.
  intros Hmode Hvw Hva Hvb E1 E2 H. unfold main in H.
  apply bind_Ok in H as (m & Hm & H).
  rewrite Hmode in H. revert H. switch_consts.
  destruct (PTRDIFF_MAX <? tape_bytes (cn c)); [discriminate |]. intros H.
  destruct (compile_loop_compile c s input m Hm) as (_ & Hcfg & _).
  apply (run_loop_invariant
           (fun a => cfg a = c /\ im a = im m /\ Forall (in_range c) (cm a)))
    in H; [now destruct H as (_ & _ & H) | | simpl].
  - intros a x a1 (A1 & A2 & A3) Hx H1. simpl.
    pose proof (exec_keeps _ _ _ H1) as [(K1 & K2 & _) _].
    split; [congruence |]. split; [congruence |].
    rewrite <- A1. apply (exec_cells_in_range x a a1 H1);
      rewrite ?A1; try assumption.
    intros q Hq. apply zlookup_Ok in Hx as [_ Hx]. rewrite A2 in Hx.
    apply (compiled_quantities_nonneg c s input m x q Hm); [| exact Hq].
    apply list_elem_of_lookup. eauto.
  - repeat split; try assumption.
    apply Forall_forall. intros v Hv. apply elem_of_replicate in Hv as [-> _].
    unfold in_range. lia.
Qed.

Lemma cells_stay_in_range_witness :
  exists m', main saturating (src "-,>,++[-]") ["z"%byte] 20 = Ok m' /\
    Forall (in_range saturating) (cm m').
Proof.
  eexists. split; [vm_compute; reflexivity |].
  apply (cells_stay_in_range saturating (src "-,>,++[-]") ["z"%byte] 20);
    first [reflexivity | (simpl; lia) | (vm_compute; reflexivity)
          | by_values].
Defined.

Lemma wrap_above_inv (v low high w : Z) :
  low <= high -> low <= v ->
  wrap v low high = Ok w -> low <= w <= high.
Proof.
  intros Hlh Hv H. unfold wrap in H.
  apply bind_Ok in H as (a & Ha & H). apply bind_Ok in H as (b & Hb & H).
  apply bind_Ok in H as (c & Hc & H). apply bind_Ok in H as (r & Hr & H).
  unfold lsub, ladd, long in *.
  destruct (in_long (v - low)); [| discriminate]. injection Ha as <-.
  destruct (in_long (1 + high)); [| discriminate]. injection Hb as <-.
  destruct (in_long (1 + high - low)); [| discriminate]. injection Hc as <-.
  unfold lrem in Hr.
  destruct (1 + high - low =? 0); [discriminate |].
  destruct ((v - low =? LONG_MIN) && (1 + high - low =? -1));
    [discriminate |]. injection Hr as <-.
  destruct (in_long (Z.rem (v - low) (1 + high - low) + low));
    [| discriminate]. injection H as <-.
  rewrite Z.rem_mod_nonneg by lia.
  assert (0 <= (v - low) mod (1 + high - low) < 1 + high - low)
    by (apply Z.mod_pos_bound; lia).
  lia.
Qed.

Lemma write_cell_max (c : config) (v : Z) (m m' : locals) :
  write_cell v m = Ok m' -> at_most_max c v ->
  Forall (at_most_max c) (cm m) -> Forall (at_most_max c) (cm m').
Proof.
  intros H Hv Hall. apply write_cell_inv in H as ->. simpl.
  apply Forall_alter; auto.
Qed.

Lemma read_cell_max (c : config) (v : Z) (m : locals) :
  read_cell m = Ok v -> Forall (at_most_max c) (cm m) -> at_most_max c v.
Proof.
  unfold read_cell. intros H Hall. apply zlookup_Ok in H as [_ H].
  rewrite Forall_forall in Hall. apply Hall, list_elem_of_lookup. eauto.
Qed.

Lemma read_turn_max (m m' : locals) :
  read_turn m = Ok m' ->
  va (cfg m) <= vb (cfg m) -> 255 <= vb (cfg m) ->
  Forall (at_most_max (cfg m)) (cm m) ->
  Forall (at_most_max (cfg m')) (cm m') /\ cfg m' = cfg m.
Proof.
  intros H Hva Hvb Hall.
  pose proof (read_turn_keeps _ _ H) as [(Hcfg & _) _].
  split; [| exact Hcfg]. rewrite Hcfg.
  unfold read_turn in H; cbv zeta in H.
  destruct (stdin m) as [|b rest].
  - apply bind_Ok in H as (k & Hk & H).
    apply (write_cell_max _ _ _ _ H); [| exact Hall].
    unfold at_most_max, EOF in *.
    destruct (ce (cfg m) =? BF_EOF_ZERO); [injection Hk as <-; lia |].
    destruct (ce (cfg m) =? BF_EOF_NEGONE); [injection Hk as <-; lia |].
    destruct (ce (cfg m) =? BF_EOF_MIN); [injection Hk as <-; lia |].
    destruct (ce (cfg m) =? BF_EOF_MAX); [injection Hk as <-; lia |].
    destruct (ce (cfg m) =? BF_EOF_NOCHG); [injection Hk as <-; lia |].
    discriminate.
  - apply (write_cell_max _ _ _ _ H); [| exact Hall].
    pose proof (byte_value_range b). unfold at_most_max. lia.
Qed.

Lemma turns_read_max (n : nat) (m m' : locals) :
  turns n read_turn m = Ok m' ->
  va (cfg m) <= vb (cfg m) -> 255 <= vb (cfg m) ->
  Forall (at_most_max (cfg m)) (cm m) ->
  Forall (at_most_max (cfg m)) (cm m').
Proof.
  revert m. induction n as [|n IH]; intros m; simpl.
  - now intros [= <-].
  - intros H Hva Hvb Hall. apply bind_Ok in H as (m1 & H1 & H).
    destruct (read_turn_max _ _ H1 Hva Hvb Hall) as [Hall1 Hcfg].
    rewrite <- Hcfg. apply (IH m1 H); rewrite ?Hcfg; try assumption.
    now rewrite <- Hcfg.
Qed.

Lemma exec_cells_at_most_max (x : instruction) (m m' : locals) :
  exec x m = Ok m' ->
  va (cfg m) <= vb (cfg m) -> 255 <= vb (cfg m) ->
  (forall q, quantity x = Some q -> 0 <= q) ->
  Forall (at_most_max (cfg m)) (cm m) ->
  Forall (at_most_max (cfg m)) (cm m').
Proof.
  intros H Hva Hvb Hq Hall.
  assert (Hwrap : forall s w m1 v,
            read_cell m = Ok v -> write_cell s m = Ok m1 ->
            write_cell w m1 = Ok m' -> w <= vb (cfg m) ->
            Forall (at_most_max (cfg m)) (cm m')).
  { intros s w m1 v Hv H1 H2 Hw.
    apply write_cell_inv in H1 as ->. apply write_cell_inv in H2 as ->.
    simpl. rewrite list_alter_alter_eq.
    apply Forall_alter; [exact Hall |]. intros y _ _. exact Hw. }
  destruct (Z.eqb_spec (instruction_ x) BF_OP_VINC) as [Hi|N1].
  { unfold exec in H; cbv zeta in H. rewrite Hi in H. revert H.
    switch_consts. intros H.
    apply bind_Ok in H as (v & Hv & H). apply bind_Ok in H as (q & Hqx & H).
    apply bind_Ok in H as (n & Hn & H).
    unfold ladd, long in Hn. destruct (in_long (v + q)); [| discriminate].
    injection Hn as <-.
    destruct (v + q >? vb (cfg m)) eqn:Hgt.
    - rewrite Z.gtb_ltb in Hgt. apply Z.ltb_lt in Hgt.
      destruct (vw (cfg m) =? BF_END_ERROR); [discriminate |].
      destruct (vw (cfg m) =? BF_END_IGNORE).
      { apply (write_cell_max _ _ _ _ H); [| exact Hall].
        unfold at_most_max. lia. }
      destruct (vw (cfg m) =? BF_END_WRAP); [| discriminate].
      apply bind_Ok in H as (m1 & H1 & H).
      apply bind_Ok in H as (v1 & Hv1 & H).
      apply bind_Ok in H as (w & Hw & H).
      destruct (write_cell_read m v (v + q) Hv) as (m1' & Hw1 & Hr1 & _).
      rewrite Hw1 in H1. injection H1 as <-. rewrite Hr1 in Hv1.
      injection Hv1 as <-.
      apply wrap_above_inv in Hw; [| lia | lia].
      apply (Hwrap _ _ _ _ Hv Hw1 H). lia.
    - rewrite Z.gtb_ltb in Hgt. apply Z.ltb_ge in Hgt.
      apply (write_cell_max _ _ _ _ H); [unfold at_most_max; lia | exact Hall]. }
  destruct (Z.eqb_spec (instruction_ x) BF_OP_VDEC) as [Hi|N2].
  { unfold exec in H; cbv zeta in H. rewrite Hi in H. revert H.
    switch_consts. intros H.
    apply bind_Ok in H as (v & Hv & H). apply bind_Ok in H as (q & Hqx & H).
    apply bind_Ok in H as (n & Hn & H).
    unfold written in Hqx. destruct (quantity x) as [q'|] eqn:Eq;
      [injection Hqx as -> | discriminate].
    specialize (Hq q eq_refl).
    unfold lsub, long in Hn. destruct (in_long (v - q)); [| discriminate].
    injection Hn as <-.
    pose proof (read_cell_max _ _ _ Hv Hall) as Hr. unfold at_most_max in Hr.
    destruct (Z.ltb_spec (v - q) (va (cfg m))) as [Hlt|Hge].
    - destruct (vw (cfg m) =? BF_END_ERROR); [discriminate |].
      destruct (vw (cfg m) =? BF_END_IGNORE).
      { apply (write_cell_max _ _ _ _ H); [| exact Hall].
        unfold at_most_max. lia. }
      destruct (vw (cfg m) =? BF_END_WRAP); [| discriminate].
      apply bind_Ok in H as (m1 & H1 & H).
      apply bind_Ok in H as (v1 & Hv1 & H).
      apply bind_Ok in H as (w & Hw & H).
      destruct (write_cell_read m v (v - q) Hv) as (m1' & Hw1 & Hr1 & _).
      rewrite Hw1 in H1. injection H1 as <-. rewrite Hr1 in Hv1.
      injection Hv1 as <-.
      apply wrap_below in Hw as [_ Hw]; [| lia | lia].
      apply (Hwrap _ _ _ _ Hv Hw1 H). lia.
    - apply (write_cell_max _ _ _ _ H); [unfold at_most_max; lia | exact Hall]. }
  destruct (Z.eqb_spec (instruction_ x) BF_OP_IN) as [Hi|N3].
  { unfold exec in H; cbv zeta in H. rewrite Hi in H. revert H.
    switch_consts. intros H.
    apply bind_Ok in H as (q & _ & H). unfold repeat_quantity in H.
    destruct (q <? 0); [discriminate |].
    exact (turns_read_max _ _ _ H Hva Hvb Hall). }
  now rewrite (exec_cm_same x m m' H N1 N2 N3).
Qed.

(** X25.  Whatever the behaviours are, no cell ever exceeds the maximum:
    with [va <= vb] and [255 <= vb], when [main] returns in run mode every
    cell of the tape is at most [vb] (under [w] a cell can still go below
    [va]). *)
Theorem cells_never_exceed_max
    (c : config) (s : list ascii) (input : list byte) (fuel : nat)
    (m' : locals) :
  mode c = BF_MODE_RUN ->
  va c <= vb c -> 255 <= vb c ->
  main c s input fuel = Ok m' ->
  Forall (at_most_max c) (cm m').
Proof.
  intros Hmode Hva Hvb H. unfold main in H.
  apply bind_Ok in H as (m & Hm & H).
  rewrite Hmode in H. revert H. switch_consts.
  destruct (PTRDIFF_MAX <? tape_bytes (cn c)); [discriminate |]. intros H.
  destruct (compile_loop_compile c s input m Hm) as (_ & Hcfg & _).
  apply (run_loop_invariant
           (fun a => cfg a = c /\ im a = im m /\
                     Forall (at_most_max c) (cm a)))
    in H; [now destruct H as (_ & _ & H) | | simpl].
  - intros a x a1 (A1 & A2 & A3) Hx H1. simpl.
    pose proof (exec_keeps _ _ _ H1) as [(K1 & K2 & _) _].
    split; [congruence |]. split; [congruence |].
    rewrite <- A1. apply (exec_cells_at_most_max x a a1 H1);
      rewrite ?A1; try assumption.
    intros q Hq. apply zlookup_Ok in Hx as [_ Hx]. rewrite A2 in Hx.
    apply (compiled_quantities_nonneg c s input m x q Hm); [| exact Hq].
    apply list_elem_of_lookup. eauto.
  - repeat split; try assumption.
    apply Forall_forall. intros v Hv. apply elem_of_replicate in Hv as [-> _].
    unfold at_most_max. lia.
Qed.

Lemma cells_never_exceed_max_witness :
  exists m', main ten_cells_wrapping (src "-->,<+") ["z"%byte] 20 = Ok m' /\
    Forall (at_most_max ten_cells_wrapping) (cm m').
Proof.
  eexists. split; [vm_compute; reflexivity |].
  apply (cells_never_exceed_max ten_cells_wrapping (src "-->,<+")
           ["z"%byte] 20);
    first [reflexivity | (simpl; lia) | (vm_compute; reflexivity)].
Defined.
